(** * btcpool-go-modules: the chain switcher and the user-chain manager

    A shallow embedding of two programs of the repository:

    - [chainSwitcher/main.go], the loop that polls the dispatch API, picks
      the chain with the largest dispatched hashrate, records the change in
      MySQL and sends the [auto_switch_chain] command to Kafka;
    - the [UserChainManager] of the switcher API server, which keeps the
      user -> chain / puid table and mirrors it into ZooKeeper.

    Go maps are [gmap]s; the order in which [range] visits a map is chosen
    by the environment.  A [float64] is a [spec_float] of the Standard
    Library, compared with [SFltb].  Calls that leave the process (HTTP,
    MySQL, Kafka, ZooKeeper) take their outcome from an environment value
    and leave an event behind. *)

From Stdlib Require Import ZArith String Ascii List Bool Lia.
From Stdlib Require Import Floats.SpecFloat.
From stdpp Require Import base gmap strings list fin_maps.

Local Open Scope Z_scope.

(* ===================================================================== *)
(** * chainSwitcher/main.go *)
(* ===================================================================== *)

Module ChainSwitcher.

(** ** Data *)

Definition float64 : Type := spec_float.

(** The zero value of a [float64] variable ([var largeHashrate float64]). *)
Definition float64_zero : float64 := S754_zero false.

(** Go's [a > b] on [float64]: false as soon as one side is a NaN. *)
Definition float64_gt (a b : float64) : bool := SFltb b a.

(** The [float64] nearest to an integer, as [json.Unmarshal] reads an
    integer literal. *)
Definition float64_of_Z (z : Z) : float64 := binary_normalize 53 1024 z 0 false.

Record ChainRecord := {
  DispatchHashrate : float64;
  DispatchableHashrate : float64
}.

Record ChainDispatchRecord := {
  Coins : gmap string ChainRecord
}.

Record ChainSwitcherConfig := {
  Algorithm : string;
  ChainDispatchAPI : string;
  ChainNameMap : gmap string string
}.

Record KafkaCommand := {
  ID : Z;
  Type_ : string;
  Action : string;
  CreatedAt : string;
  ChainName : string
}.

(** The two package-level variables the loop owns. [commandID] is a
    [uint64]. *)
Record State := {
  currentChainName : string;
  commandID : Z
}.

(** ** The environment of one pass *)

(** [http.Get], [ioutil.ReadAll] and [json.Unmarshal] of
    [updateCurrentChain]: the request fails, reading the body fails, or a
    body arrives, which decodes into a [ChainDispatchRecord] or does not. *)
Inductive DispatchAPIResult :=
| GetFailed
| ReadBodyFailed
| GotBody (body : string) (decoded : option ChainDispatchRecord).

Record PassEnv := {
  api : DispatchAPIResult;
  (** the order in which [range chainDispatchRecord.Coins] yields *)
  rangeCoins : gmap string ChainRecord -> list (string * ChainRecord);
  (** whether [insertStmt.Exec] succeeds *)
  insertOk : bool;
  (** [time.Now().UTC().Format(...)] *)
  now : string
}.

(** A [range] visits every entry of the map once. *)
Definition valid_range (range : gmap string ChainRecord -> list (string * ChainRecord)) : Prop :=
  forall m, range m ≡ₚ map_to_list m.

(** What a pass leaves behind: rows of the MySQL table and messages
    written to the controller topic. *)
Inductive Event :=
| AuditRow (algorithm prev_chain curr_chain api_result : string)
| KafkaWrite (command : KafkaCommand).

(** A pass comes back to the loop, or [glog.Fatal] ended the process. *)
Inductive Outcome :=
| Returned (st : State) (events : list Event)
| Exited (events : list Event).

(** ** updateCurrentChain *)

(** The body of [for chain, record := range chainDispatchRecord.Coins],
    on the pair [(largeHashrate, bestChain)]. *)
Definition selectStep (cfg : ChainSwitcherConfig) (acc : float64 * string)
    (entry : string * ChainRecord) : float64 * string :=
  let '(largeHashrate, bestChain) := acc in
  let '(chain, record) := entry in
  if float64_gt (DispatchHashrate record) largeHashrate then
    match ChainNameMap cfg !! chain with
    | Some chainName => (DispatchHashrate record, chainName)
    | None => (largeHashrate, bestChain)
    end
  else (largeHashrate, bestChain).

Definition selectLoop (cfg : ChainSwitcherConfig) (entries : list (string * ChainRecord))
    : float64 * string :=
  fold_left (selectStep cfg) entries (float64_zero, "").

Definition bestChainOf (cfg : ChainSwitcherConfig) (entries : list (string * ChainRecord)) : string :=
  snd (selectLoop cfg entries).

Definition updateCurrentChain (cfg : ChainSwitcherConfig) (env : PassEnv) (st : State) : Outcome :=
  let oldChainName := currentChainName st in
  match api env with
  | GetFailed => Returned st []
  | ReadBodyFailed => Returned st []
  | GotBody body None => Returned st []
  | GotBody body (Some chainDispatchRecord) =>
    let bestChain := bestChainOf cfg (rangeCoins env (Coins chainDispatchRecord)) in
    let st1 :=
      if String.eqb bestChain "" then st
      else {| currentChainName := bestChain; commandID := commandID st |} in
    if negb (String.eqb oldChainName (currentChainName st1)) then
      if insertOk env then
        Returned st1 [AuditRow (Algorithm cfg) oldChainName (currentChainName st1) body]
      else Exited []
    else Returned st1 []
  end.

(** The accumulator is the initial one, or it was taken from a chain of the
    rename map whose hashrate is above zero. *)
Definition from_entry (cfg : ChainSwitcherConfig) (l : list (string * ChainRecord))
    (acc : float64 * string) : Prop :=
  acc = (float64_zero, "") \/
  exists chain record,
    (chain, record) ∈ l /\
    ChainNameMap cfg !! chain = Some (snd acc) /\
    DispatchHashrate record = fst acc /\
    SFltb float64_zero (fst acc) = true.

(** Once the loop holds [record], no other chain of the list takes its
    place: each is [record]'s own entry, or outside the rename map, or
    strictly below. *)
Definition yields_to (cfg : ChainSwitcherConfig) (chain : string) (record : ChainRecord)
    (l : list (string * ChainRecord)) : Prop :=
  forall c r, (c, r) ∈ l ->
    (c, r) = (chain, record) \/ ChainNameMap cfg !! c = None \/
    SFltb (DispatchHashrate r) (DispatchHashrate record) = true.

(** ** updateChain *)

Definition uint64_succ (n : Z) : Z := (n + 1) mod 2 ^ 64.

Definition mkCommand (id : Z) (createdAt chainName : string) : KafkaCommand :=
  {| ID := id; Type_ := "sserver_cmd"; Action := "auto_switch_chain";
     CreatedAt := createdAt; ChainName := chainName |}.

(** One turn of the [for] loop of [updateChain], up to the sleep. *)
Definition updateChainPass (cfg : ChainSwitcherConfig) (env : PassEnv) (st : State) : Outcome :=
  match updateCurrentChain cfg env st with
  | Exited events => Exited events
  | Returned st1 events =>
    if negb (String.eqb (currentChainName st1) "") then
      let id := uint64_succ (commandID st1) in
      Returned {| currentChainName := currentChainName st1; commandID := id |}
               (events ++ [KafkaWrite (mkCommand id (now env) (currentChainName st1))])
    else Returned st1 events
  end.

(** The loop over the passes the environment grants. *)
Fixpoint updateChain (cfg : ChainSwitcherConfig) (envs : list PassEnv) (st : State) : Outcome :=
  match envs with
  | [] => Returned st []
  | env :: envs' =>
    match updateChainPass cfg env st with
    | Exited events => Exited events
    | Returned st1 events =>
      match updateChain cfg envs' st1 with
      | Exited events' => Exited (events ++ events')
      | Returned st2 events' => Returned st2 (events ++ events')
      end
    end
  end.

(** The chain a pass that decodes the body moves to. *)
Definition nextChainName (cfg : ChainSwitcherConfig) (env : PassEnv) (st : State)
    (record : ChainDispatchRecord) : string :=
  let bestChain := bestChainOf cfg (rangeCoins env (Coins record)) in
  if String.eqb bestChain "" then currentChainName st else bestChain.

(** The commands and the audit rows among the events. *)
Definition commands (events : list Event) : list KafkaCommand :=
  omap (fun e => match e with KafkaWrite c => Some c | _ => None end) events.

Definition auditRows (events : list Event) : list (string * string * string * string) :=
  omap (fun e => match e with AuditRow a p c b => Some (a, p, c, b) | _ => None end) events.

Definition eventsOf (o : Outcome) : list Event :=
  match o with Returned _ events => events | Exited events => events end.

(** ** The dispatch record of the worked example: A at 5, B at 9 *)

Definition record_of (h : Z) : ChainRecord :=
  {| DispatchHashrate := float64_of_Z h; DispatchableHashrate := float64_of_Z h |}.

Definition coinsAB : gmap string ChainRecord :=
  <["B" := record_of 9]> (<["A" := record_of 5]> ∅).

Definition cfgB : ChainSwitcherConfig :=
  {| Algorithm := "sha256"; ChainDispatchAPI := "http://dispatch/api";
     ChainNameMap := <["B" := "chainB"]> ∅ |}.

Definition envAB (ok : bool) : PassEnv :=
  {| api := GotBody "{coins}" (Some {| Coins := coinsAB |});
     rangeCoins := map_to_list; insertOk := ok; now := "2019-01-01 00:00:00" |}.

(** A dispatch record where the one chain of the rename map stands at 0. *)
Definition coinsB0 : gmap string ChainRecord := <["B" := record_of 0]> ∅.

Definition envB0 : PassEnv :=
  {| api := GotBody "{coins}" (Some {| Coins := coinsB0 |});
     rangeCoins := map_to_list; insertOk := true; now := "2019-01-01 00:00:00" |}.

(** The passes that can move nothing: the dispatch record did not arrive,
    or no chain of the rename map in it is above zero. *)
Definition no_chain_above_zero (cfg : ChainSwitcherConfig) (env : PassEnv) : Prop :=
  match api env with
  | GotBody _ (Some record) =>
    valid_range (rangeCoins env) /\
    forall chain r, Coins record !! chain = Some r -> is_Some (ChainNameMap cfg !! chain) ->
      SFleb (DispatchHashrate r) float64_zero = true
  | _ => True
  end.

End ChainSwitcher.

(* ===================================================================== *)
(** * The Go library calls of the user-chain manager *)
(* ===================================================================== *)

Module Go.

(** ** package strings, on byte strings *)

Definition byteBetween (lo hi c : ascii) : bool :=
  ((N_of_ascii lo <=? N_of_ascii c) && (N_of_ascii c <=? N_of_ascii hi))%N.

(** ['A' <= c && c <= 'Z'], then [c += 'a' - 'A']. *)
Definition lowerByte (c : ascii) : ascii :=
  if byteBetween "A" "Z" c then ascii_of_N (N_of_ascii c + 32) else c.

Fixpoint mapBytes (f : ascii -> ascii) (s : string) : string :=
  match s with
  | EmptyString => EmptyString
  | String c s' => String (f c) (mapBytes f s')
  end.

(** No byte at or above [utf8.RuneSelf]. *)
Fixpoint isASCII (s : string) : bool :=
  match s with
  | EmptyString => true
  | String c s' => (N_of_ascii c <? 128)%N && isASCII s'
  end.

(** [strings.Index], counting bytes from [i]; -1 when [substr] is absent. *)
Fixpoint IndexFrom (i : Z) (s substr : string) : Z :=
  match s with
  | EmptyString => if String.prefix substr EmptyString then i else -1
  | String _ s' => if String.prefix substr s then i else IndexFrom (i + 1) s' substr
  end.

Definition Index (s substr : string) : Z := IndexFrom 0 s substr.

Definition Contains (s substr : string) : bool := 0 <=? Index s substr.

(** [strings.LastIndex]: the rightmost match wins. *)
Fixpoint LastIndexFrom (i : Z) (s substr : string) : Z :=
  match s with
  | EmptyString => if String.prefix substr EmptyString then i else -1
  | String _ s' =>
    let later := LastIndexFrom (i + 1) s' substr in
    if 0 <=? later then later else if String.prefix substr s then i else -1
  end.

Definition LastIndex (s substr : string) : Z := LastIndexFrom 0 s substr.

(** [s[lo:hi]] for [0 <= lo <= hi <= len(s)]. *)
Definition slice (s : string) (lo hi : Z) : string :=
  substring (Z.to_nat lo) (Z.to_nat (hi - lo)) s.

Section ToLower.

(** [strings.ToLower] lower-cases an all-ASCII string byte by byte, and
    sends any other string through [strings.Map(unicode.ToLower, s)]; the
    Unicode case table is not part of the repository. *)
Variable lowerUnicode : string -> string.

Definition ToLower (s : string) : string :=
  if isASCII s then mapBytes lowerByte s else lowerUnicode s.

End ToLower.

(** ** package encoding/json *)

(** A syntactically valid JSON text. An integer literal has neither a
    fraction nor an exponent; any other number literal keeps its text. *)
Unset Elimination Schemes.
Inductive json :=
| JNull
| JBool (b : bool)
| JInt (z : Z)
| JFrac (literal : string)
| JStr (s : string)
| JArr (elements : list json)
| JObj (members : list (string * json)).
Set Elimination Schemes.

(** The bytes [json.Unmarshal] is handed. *)
Inductive Body :=
| Malformed
| Document (j : json).

(** A key matches a field when it is equal to the field's name under
    simple case folding; against a lower-case ASCII name that leaves the
    two cases of each letter, U+017F for [s] and U+212A for [k]. *)
Fixpoint foldKey (key : string) : string :=
  match key with
  | EmptyString => EmptyString
  | String "197" (String "191" rest) => String "s" (foldKey rest)
  | String "226" (String "132" (String "170" rest)) => String "k" (foldKey rest)
  | String c rest => String (lowerByte c) (foldKey rest)
  end.

(** Decoding into an integer field of the given range: [null] leaves the
    field; a literal out of range, a non-integer or another kind of value
    is an [UnmarshalTypeError], here [None]. *)
Definition decodeInt (lo hi : Z) (old : Z) (v : json) : option Z :=
  match v with
  | JNull => Some old
  | JInt z => if (lo <=? z) && (z <=? hi) then Some z else None
  | _ => None
  end.

Definition decodeString (old : string) (v : json) : option string :=
  match v with
  | JNull => Some old
  | JStr s => Some s
  | _ => None
  end.

Definition int32_min : Z := - 2 ^ 31.
Definition int32_max : Z := 2 ^ 31 - 1.
Definition int64_min : Z := - 2 ^ 63.
Definition int64_max : Z := 2 ^ 63 - 1.

(** Decoding into a [map[string]int32]: [null] makes the map nil, an object
    adds its members to the map at hand, a later member replacing an
    earlier one with the same key. *)
Definition decodeMembersInt32 (members : list (string * json)) (old : gmap string Z)
    : option (gmap string Z) :=
  fold_left
    (fun acc member =>
       match acc with
       | Some m =>
         match decodeInt int32_min int32_max 0 (snd member) with
         | Some z => Some (<[fst member := z]> m)
         | None => None
         end
       | None => None
       end)
    members (Some old).

Definition decodeMapInt32 (old : gmap string Z) (v : json) : option (gmap string Z) :=
  match v with
  | JNull => Some ∅
  | JObj members => decodeMembersInt32 members old
  | _ => None
  end.

(** Decoding into a [[]interface{}]: any array will do. *)
Definition decodeSlice (v : json) : option (list json) :=
  match v with
  | JNull => Some []
  | JArr elements => Some elements
  | _ => None
  end.

End Go.

(* ===================================================================== *)
(** * The user-chain manager *)
(* ===================================================================== *)

Module UserChainManager.

Import Go.

(** ** Data *)

Record UserChainInfo := {
  userName : string;
  ChainName : string;
  SubPoolName : string;
  PUIDs : gmap string Z
}.

Definition NewUserChainInfo (userName : string) : UserChainInfo :=
  {| userName := userName; ChainName := ""; SubPoolName := ""; PUIDs := ∅ |}.

(** The fields of [ConfigData] the manager reads. *)
Record ConfigData := {
  StratumServerCaseInsensitive : bool;
  ZKSwitcherWatchDir : string;
  UserListAPI : gmap string string
}.

(** [userChainMap] holds pointers in the source; every record is reached
    through the map alone, so the map holds the records here. *)
Record Manager := {
  configData : ConfigData;
  userChainMap : gmap string UserChainInfo;
  lastPUID : gmap string Z;
  lastRequestDate : Z
}.

Definition NewUserChainManager (configData : ConfigData) : Manager :=
  {| configData := configData; userChainMap := ∅; lastPUID := ∅; lastRequestDate := 0 |}.

Record UserIDMapResponse := {
  ErrNo : Z;
  ErrMsg : string;
  Data : gmap string Z
}.

Record UserIDMapEmptyResponse := {
  EmptyErrNo : Z;
  EmptyErrMsg : string;
  EmptyData : list json
}.

(** ** ZooKeeper *)

(** The document [json.Marshal(info)] writes: [userName] has no tag and is
    not exported. *)
Record ZKDocument := {
  doc_chain : string;
  doc_subpool : string;
  doc_puids : gmap string Z
}.

Definition Marshal (info : UserChainInfo) : ZKDocument :=
  {| doc_chain := ChainName info; doc_subpool := SubPoolName info; doc_puids := PUIDs info |}.

Inductive ZKCall :=
| ZKExists (path : string)
| ZKSet (path : string) (data : ZKDocument) (version : Z)
| ZKCreate (path : string) (data : ZKDocument).

Inductive ZKError := ErrNoServer | ErrNoNode | ErrBadVersion | ErrNodeExists.

(** The client: the tree of versioned nodes, the calls made so far, and
    which of the calls, by number, the connection loses. *)
Record Zookeeper := {
  znodes : gmap string (ZKDocument * Z);
  zkCalls : list ZKCall;
  zkLost : nat -> bool
}.

Definition zkCall (zk : Zookeeper) (call : ZKCall) (nodes : gmap string (ZKDocument * Z)) : Zookeeper :=
  {| znodes := nodes; zkCalls := zkCalls zk ++ [call]; zkLost := zkLost zk |}.

Definition zkExists (zk : Zookeeper) (path : string) : (ZKError + bool * Z) * Zookeeper :=
  let zk' := zkCall zk (ZKExists path) (znodes zk) in
  if zkLost zk (length (zkCalls zk)) then (inl ErrNoServer, zk')
  else match znodes zk !! path with
       | Some (_, version) => (inr (true, version), zk')
       | None => (inr (false, 0), zk')
       end.

Definition zkSet (zk : Zookeeper) (path : string) (data : ZKDocument) (version : Z)
    : option ZKError * Zookeeper :=
  let call := ZKSet path data version in
  if zkLost zk (length (zkCalls zk)) then (Some ErrNoServer, zkCall zk call (znodes zk))
  else match znodes zk !! path with
       | Some (_, v) =>
         if v =? version then (None, zkCall zk call (<[path := (data, v + 1)]> (znodes zk)))
         else (Some ErrBadVersion, zkCall zk call (znodes zk))
       | None => (Some ErrNoNode, zkCall zk call (znodes zk))
       end.

Definition zkCreate (zk : Zookeeper) (path : string) (data : ZKDocument)
    : option ZKError * Zookeeper :=
  let call := ZKCreate path data in
  if zkLost zk (length (zkCalls zk)) then (Some ErrNoServer, zkCall zk call (znodes zk))
  else match znodes zk !! path with
       | Some _ => (Some ErrNodeExists, zkCall zk call (znodes zk))
       | None => (None, zkCall zk call (<[path := (data, 0)]> (znodes zk)))
       end.

(** ** Errors and the state the methods thread *)

Inductive error :=
| ErrUserNotExists (userName : string)
| ErrZK (e : ZKError)
| ErrHTTPRequest
| ErrHTTPFetchBody
| ErrParseResult
| ErrAPIReturned.

Record World := {
  manager : Manager;
  zookeeper : Zookeeper
}.

Definition withManager (w : World) (m : Manager) : World :=
  {| manager := m; zookeeper := zookeeper w |}.

Definition withZookeeper (w : World) (zk : Zookeeper) : World :=
  {| manager := manager w; zookeeper := zk |}.

Definition withUserChainMap (m : Manager) (users : gmap string UserChainInfo) : Manager :=
  {| configData := configData m; userChainMap := users;
     lastPUID := lastPUID m; lastRequestDate := lastRequestDate m |}.

Definition withLastPUID (m : Manager) (last : gmap string Z) : Manager :=
  {| configData := configData m; userChainMap := userChainMap m;
     lastPUID := last; lastRequestDate := lastRequestDate m |}.

(** [manager.userChainMap[userName]], made with [NewUserChainInfo] when
    the key is missing. *)
Definition infoOrNew (m : Manager) (userName : string) : UserChainInfo :=
  match userChainMap m !! userName with
  | Some info => info
  | None => NewUserChainInfo userName
  end.

(** ** The methods *)

Definition WriteToZK (userName : string) (w : World) : option error * World :=
  match userChainMap (manager w) !! userName with
  | None => (Some (ErrUserNotExists userName), w)
  | Some info =>
    let jsonBytes := Marshal info in
    let zkPath := (ZKSwitcherWatchDir (configData (manager w)) +:+ userName)%string in
    match zkExists (zookeeper w) zkPath with
    | (inl e, zk1) => (Some (ErrZK e), withZookeeper w zk1)
    | (inr (exists_, version), zk1) =>
      let '(err, zk2) :=
        if exists_ then zkSet zk1 zkPath jsonBytes version
        else zkCreate zk1 zkPath jsonBytes in
      (option_map ErrZK err, withZookeeper w zk2)
    end
  end.

Definition GetChain (userName : string) (m : Manager) : string :=
  match userChainMap m !! userName with
  | None => ""
  | Some info => ChainName info
  end.

Definition SetPUID (userName chain : string) (puid : Z) (m : Manager) : Manager :=
  let info := infoOrNew m userName in
  let info1 :=
    {| userName := UserChainManager.userName info; ChainName := ChainName info;
       SubPoolName := SubPoolName info; PUIDs := <[chain := puid]> (PUIDs info) |} in
  let info2 :=
    if Z.of_nat (String.length (ChainName info1)) <=? 0 then
      {| userName := UserChainManager.userName info1; ChainName := chain;
         SubPoolName := SubPoolName info1; PUIDs := PUIDs info1 |}
    else info1 in
  withUserChainMap m (<[userName := info2]> (userChainMap m)).

Definition SetChain (userName chain : string) (m : Manager) : Manager :=
  let info := infoOrNew m userName in
  withUserChainMap m
    (<[userName := {| userName := UserChainManager.userName info; ChainName := chain;
                      SubPoolName := SubPoolName info; PUIDs := PUIDs info |}]>
       (userChainMap m)).

Definition SetSubPool (userName subpool : string) (m : Manager) : Manager :=
  let info := infoOrNew m userName in
  withUserChainMap m
    (<[userName := {| userName := UserChainManager.userName info; ChainName := ChainName info;
                      SubPoolName := subpool; PUIDs := PUIDs info |}]>
       (userChainMap m)).

(** The setters, as calls with their arguments, for talking about what was
    done to a manager before. *)
Inductive SetterCall :=
| CallSetPUID (userName chain : string) (puid : Z)
| CallSetChain (userName chain : string)
| CallSetSubPool (userName subpool : string).

Definition setterUser (call : SetterCall) : string :=
  match call with
  | CallSetPUID userName _ _ => userName
  | CallSetChain userName _ => userName
  | CallSetSubPool userName _ => userName
  end.

Definition applySetter (m : Manager) (call : SetterCall) : Manager :=
  match call with
  | CallSetPUID userName chain puid => SetPUID userName chain puid m
  | CallSetChain userName chain => SetChain userName chain m
  | CallSetSubPool userName subpool => SetSubPool userName subpool m
  end.

(** ** Decoding the user-id list *)

Definition emptyUserIDMapResponse : UserIDMapResponse :=
  {| ErrNo := 0; ErrMsg := ""; Data := ∅ |}.

(** One member of the object, stored into the field its key names;
    a key that names no field is skipped. *)
Definition decodeUserIDMapMember (acc : option UserIDMapResponse) (member : string * json)
    : option UserIDMapResponse :=
  match acc with
  | None => None
  | Some r =>
    let key := foldKey (fst member) in
    if String.eqb key "err_no" then
      option_map (fun z => {| ErrNo := z; ErrMsg := ErrMsg r; Data := Data r |})
                 (decodeInt int64_min int64_max (ErrNo r) (snd member))
    else if String.eqb key "err_msg" then
      option_map (fun s => {| ErrNo := ErrNo r; ErrMsg := s; Data := Data r |})
                 (decodeString (ErrMsg r) (snd member))
    else if String.eqb key "data" then
      option_map (fun d => {| ErrNo := ErrNo r; ErrMsg := ErrMsg r; Data := d |})
                 (decodeMapInt32 (Data r) (snd member))
    else Some r
  end.

(** [json.Unmarshal(body, userIDMapResponse)]; [None] is a non-nil [err]. *)
Definition UnmarshalUserIDMapResponse (body : Body) : option UserIDMapResponse :=
  match body with
  | Malformed => None
  | Document JNull => Some emptyUserIDMapResponse
  | Document (JObj members) =>
    fold_left decodeUserIDMapMember members (Some emptyUserIDMapResponse)
  | Document _ => None
  end.

Definition emptyUserIDMapEmptyResponse : UserIDMapEmptyResponse :=
  {| EmptyErrNo := 0; EmptyErrMsg := ""; EmptyData := [] |}.

Definition decodeUserIDMapEmptyMember (acc : option UserIDMapEmptyResponse)
    (member : string * json) : option UserIDMapEmptyResponse :=
  match acc with
  | None => None
  | Some r =>
    let key := foldKey (fst member) in
    if String.eqb key "err_no" then
      option_map (fun z => {| EmptyErrNo := z; EmptyErrMsg := EmptyErrMsg r;
                              EmptyData := EmptyData r |})
                 (decodeInt int64_min int64_max (EmptyErrNo r) (snd member))
    else if String.eqb key "err_msg" then
      option_map (fun s => {| EmptyErrNo := EmptyErrNo r; EmptyErrMsg := s;
                              EmptyData := EmptyData r |})
                 (decodeString (EmptyErrMsg r) (snd member))
    else if String.eqb key "data" then
      option_map (fun d => {| EmptyErrNo := EmptyErrNo r; EmptyErrMsg := EmptyErrMsg r;
                              EmptyData := d |})
                 (decodeSlice (snd member))
    else Some r
  end.

(** [json.Unmarshal(body, userIDMapEmptyResponse)]. *)
Definition UnmarshalUserIDMapEmptyResponse (body : Body) : option UserIDMapEmptyResponse :=
  match body with
  | Malformed => None
  | Document JNull => Some emptyUserIDMapEmptyResponse
  | Document (JObj members) =>
    fold_left decodeUserIDMapEmptyMember members (Some emptyUserIDMapEmptyResponse)
  | Document _ => None
  end.

(** ** The environment of a fetch *)

(** The URL of the request: the configured address and the [last_id]
    parameter, when there is one. *)
Record Request := {
  reqURL : string;
  reqLastID : option Z
}.

Inductive HTTPResult :=
| HTTPRequestFailed
| HTTPReadFailed
| HTTPBody (body : Body).

Record FetchEnv := {
  httpGet : Request -> HTTPResult;
  (** the order in which [range userIDMapResponse.Data] yields *)
  rangeData : gmap string Z -> list (string * Z)
}.

(** [manager.lastPUID[chain]] as an expression: zero for a missing key. *)
Definition lastPUIDOf (m : Manager) (chain : string) : Z :=
  default 0 (lastPUID m !! chain).

(** The id stored for a user under a chain, if any. *)
Definition puidOf (m : Manager) (userName chain : string) : option Z :=
  match userChainMap m !! userName with
  | Some info => PUIDs info !! chain
  | None => None
  end.

(** The request [FetchUserIDList] sends for a chain, and the manager once
    [lastPUID] has an entry for the chain. *)
Definition requestOf (m : Manager) (chain : string) : Request :=
  {| reqURL := default "" (UserListAPI (configData m) !! chain);
     reqLastID := lastPUID m !! chain |}.

Definition withCursor (m : Manager) (chain : string) : Manager :=
  match lastPUID m !! chain with
  | Some _ => m
  | None => withLastPUID m (<[chain := 0]> (lastPUID m))
  end.

(** The pairs the loop of [FetchUserIDList] goes through: those of a
    decoded answer whose [err_no] is 0, in the order of [range]. *)
Definition fetchedEntries (env : FetchEnv) (m : Manager) (chain : string)
    : list (string * Z) :=
  match httpGet env (requestOf m chain) with
  | HTTPBody body =>
    match UnmarshalUserIDMapResponse body with
    | Some response => if ErrNo response =? 0 then rangeData env (Data response) else []
    | None => []
    end
  | _ => []
  end.

(** Every id stored under the chain is at or below the chain's cursor. *)
Definition below_cursor (m : Manager) (chain : string) : Prop :=
  forall u id, puidOf m u chain = Some id -> id <= lastPUIDOf m chain.

(** What a pass keeps, turn after turn, when the ids it is given are at or
    above [c0], the cursor at its start: the cursor stays at or above [c0],
    the stored ids at or below the cursor, and every id stored in [m0], the
    manager at the start, has an id at or above it in its place. *)
Definition pass_inv (chain : string) (c0 : Z) (m0 m : Manager) : Prop :=
  c0 <= lastPUIDOf m chain /\
  below_cursor m chain /\
  forall u old, puidOf m0 u chain = Some old ->
    exists new, puidOf m u chain = Some new /\ old <= new.

Section Normalisation.

Variable lowerUnicode : string -> string.

(** ** RegularUserName *)

Definition RegularUserName (m : Manager) (userName : string) : string :=
  let userName1 :=
    if Contains userName "_" then slice userName 0 (LastIndex userName "_")
    else userName in
  if StratumServerCaseInsensitive (configData m) then ToLower lowerUnicode userName1
  else userName1.

(** ** FetchUserIDList *)

(** The body of [for puname, puid := range userIDMapResponse.Data]. *)
Definition applyUserID (chain : string) (update : bool) (w : World) (entry : string * Z)
    : World :=
  let '(puname, puid) := entry in
  let puname := RegularUserName (manager w) puname in
  let m1 := SetPUID puname chain puid (manager w) in
  let m2 :=
    if puid >? lastPUIDOf m1 chain then withLastPUID m1 (<[chain := puid]> (lastPUID m1))
    else m1 in
  let w2 := withManager w m2 in
  if update then snd (WriteToZK puname w2) else w2.

Definition FetchUserIDList (chain : string) (update : bool) (env : FetchEnv) (w : World)
    : option error * World :=
  let m := manager w in
  let url := default "" (UserListAPI (configData m) !! chain) in
  let '(request, m0) :=
    match lastPUID m !! chain with
    | Some last => ({| reqURL := url; reqLastID := Some last |}, m)
    | None =>
      ({| reqURL := url; reqLastID := None |}, withLastPUID m (<[chain := 0]> (lastPUID m)))
    end in
  let w0 := withManager w m0 in
  match httpGet env request with
  | HTTPRequestFailed => (Some ErrHTTPRequest, w0)
  | HTTPReadFailed => (Some ErrHTTPFetchBody, w0)
  | HTTPBody body =>
    match UnmarshalUserIDMapResponse body with
    | None =>
      match UnmarshalUserIDMapEmptyResponse body with
      | None => (Some ErrParseResult, w0)
      | Some _ => (None, w0)
      end
    | Some userIDMapResponse =>
      if negb (ErrNo userIDMapResponse =? 0) then (Some ErrAPIReturned, w0)
      else
        (None,
         fold_left (applyUserID chain update) (rangeData env (Data userIDMapResponse)) w0)
    end
  end.

End Normalisation.

(** ** A deployment for the worked examples *)

Definition exampleConfig (caseInsensitive : bool) : ConfigData :=
  {| StratumServerCaseInsensitive := caseInsensitive;
     ZKSwitcherWatchDir := "/stratum/userchain/";
     UserListAPI := <["btc" := "http://registry/btc/userlist"]> ∅ |}.

Definition exampleManager (caseInsensitive : bool) : Manager :=
  NewUserChainManager (exampleConfig caseInsensitive).

Definition emptyZookeeper : Zookeeper :=
  {| znodes := ∅; zkCalls := []; zkLost := fun _ => false |}.

Definition exampleWorld : World :=
  {| manager := exampleManager false; zookeeper := emptyZookeeper |}.

(** A registry answer [{"err_no":..,"err_msg":..,"data":{..}}]. *)
Definition userListBody (errNo : Z) (errMsg : string) (users : list (string * Z)) : Body :=
  Document (JObj [("err_no", JInt errNo); ("err_msg", JStr errMsg);
                  ("data", JObj (map (fun user => (fst user, JInt (snd user))) users))]).

(** A registry answer [{"err_no":..,"err_msg":..,"data":[]}]. *)
Definition noUserBody (errNo : Z) (errMsg : string) : Body :=
  Document (JObj [("err_no", JInt errNo); ("err_msg", JStr errMsg); ("data", JArr [])]).

(** Alice with id 5 under "btc" and the cursor of "btc" at 5. *)
Definition worldAlice5 : World :=
  {| manager := withLastPUID (SetPUID "alice" "btc" 5 (exampleManager false))
                             (<["btc" := 5]> ∅);
     zookeeper := emptyZookeeper |}.

(** A registry that answers every request with the same body. *)
Definition answering (body : Body) : FetchEnv :=
  {| httpGet := fun _ => HTTPBody body; rangeData := map_to_list |}.

End UserChainManager.

(* ===================================================================== *)
(** * Runs of the chain switcher *)
(* ===================================================================== *)

Module ChainSwitcherRun.

Import ChainSwitcher.

(** The ids after [n], as [commandID++] hands them out. *)
Fixpoint idsAfter (n : Z) (count : nat) : list Z :=
  match count with
  | O => []
  | S count' => uint64_succ n :: idsAfter (uint64_succ n) count'
  end.

(** Audit rows that lead from [start] to [stop]: each row starts where the
    row before ended, and each moves to another chain. *)
Fixpoint linked (start : string) (rows : list (string * string * string * string))
    (stop : string) : Prop :=
  match rows with
  | [] => start = stop
  | (_, prev, curr, _) :: rows' => prev = start /\ prev <> curr /\ linked curr rows' stop
  end.

(** A pass in which the dispatch record does not arrive: the request or the
    read fails, or the body does not decode. *)
Definition undecoded (env : PassEnv) : Prop :=
  match api env with
  | GotBody _ (Some _) => False
  | _ => True
  end.

(** A pass of the worked example during an outage of the dispatch API. *)
Definition envDown : PassEnv :=
  {| api := GetFailed; rangeCoins := map_to_list; insertOk := true;
     now := "2019-01-01 00:00:10" |}.

(** A and B both at 9, both renamed. *)
Definition cfgTie : ChainSwitcherConfig :=
  {| Algorithm := "sha256"; ChainDispatchAPI := "http://dispatch/api";
     ChainNameMap := <["A" := "chainA"]> (<["B" := "chainB"]> ∅) |}.

End ChainSwitcherRun.

(* ===================================================================== *)
(** * ReadConfigFile *)
(* ===================================================================== *)

Module ConfigFile.

(** The fields of [ConfigData] that [ReadConfigFile] reads or writes after
    decoding; [FetchUserListIntervalSeconds] is a [uint]. *)
Record ConfigData := {
  ZKSwitcherWatchDir : string;
  FetchUserListIntervalSeconds : Z;
  FetchUserCoinIntervalSeconds : Z;
  EnableUserAutoReg : bool;
  ZKAutoRegWatchDir : string;
  ZKSubPoolUpdateBaseDir : string;
  ZKSubPoolUpdateAckTimeout : Z
}.

Inductive error :=
| ErrReadFile
| ErrUnmarshal
| ErrSwitcherWatchDirEmpty
| ErrAutoRegWatchDirEmpty.

(** [ioutil.ReadFile] and [json.Unmarshal]: the file cannot be read, or
    does not decode (the fields decoded before the error stay), or
    decodes. *)
Inductive FileResult :=
| Unreadable
| Undecoded (partial : ConfigData)
| Decoded (configData : ConfigData).

(** [s[len(s)-1]] of a non-empty string. *)
Fixpoint lastByte (s : string) : option ascii :=
  match s with
  | EmptyString => None
  | String c EmptyString => Some c
  | String _ rest => lastByte rest
  end.

Definition endsWithSlash (s : string) : bool :=
  match lastByte s with
  | Some c => Ascii.eqb c "/"
  | None => false
  end.

Definition withSwitcherWatchDir (c : ConfigData) (dir : string) : ConfigData :=
  {| ZKSwitcherWatchDir := dir;
     FetchUserListIntervalSeconds := FetchUserListIntervalSeconds c;
     FetchUserCoinIntervalSeconds := FetchUserCoinIntervalSeconds c;
     EnableUserAutoReg := EnableUserAutoReg c;
     ZKAutoRegWatchDir := ZKAutoRegWatchDir c;
     ZKSubPoolUpdateBaseDir := ZKSubPoolUpdateBaseDir c;
     ZKSubPoolUpdateAckTimeout := ZKSubPoolUpdateAckTimeout c |}.

Definition withAutoRegWatchDir (c : ConfigData) (dir : string) : ConfigData :=
  {| ZKSwitcherWatchDir := ZKSwitcherWatchDir c;
     FetchUserListIntervalSeconds := FetchUserListIntervalSeconds c;
     FetchUserCoinIntervalSeconds := FetchUserCoinIntervalSeconds c;
     EnableUserAutoReg := EnableUserAutoReg c;
     ZKAutoRegWatchDir := dir;
     ZKSubPoolUpdateBaseDir := ZKSubPoolUpdateBaseDir c;
     ZKSubPoolUpdateAckTimeout := ZKSubPoolUpdateAckTimeout c |}.

(** The last part of [ReadConfigFile]: the base directory of the sub-pool
    updates and the three defaults. *)
Definition setDefaults (c : ConfigData) : ConfigData :=
  {| ZKSwitcherWatchDir := ZKSwitcherWatchDir c;
     FetchUserListIntervalSeconds :=
       if FetchUserListIntervalSeconds c <? 1 then 10 else FetchUserListIntervalSeconds c;
     FetchUserCoinIntervalSeconds :=
       if FetchUserCoinIntervalSeconds c <? 1 then 60 else FetchUserCoinIntervalSeconds c;
     EnableUserAutoReg := EnableUserAutoReg c;
     ZKAutoRegWatchDir := ZKAutoRegWatchDir c;
     ZKSubPoolUpdateBaseDir :=
       if (0 <? Z.of_nat (String.length (ZKSubPoolUpdateBaseDir c)))
          && negb (endsWithSlash (ZKSubPoolUpdateBaseDir c))
       then (ZKSubPoolUpdateBaseDir c +:+ "/")%string
       else ZKSubPoolUpdateBaseDir c;
     ZKSubPoolUpdateAckTimeout :=
       if ZKSubPoolUpdateAckTimeout c <? 1 then 5 else ZKSubPoolUpdateAckTimeout c |}.

(** [ReadConfigFile] from the decoded [configData] on: what it returns as
    [configData] and as [err]. *)
Definition checkConfig (c : ConfigData) : ConfigData * option error :=
  if Z.of_nat (String.length (ZKSwitcherWatchDir c)) <=? 0 then
    (c, Some ErrSwitcherWatchDirEmpty)
  else
    let c1 :=
      if negb (endsWithSlash (ZKSwitcherWatchDir c))
      then withSwitcherWatchDir c (ZKSwitcherWatchDir c +:+ "/")%string
      else c in
    if EnableUserAutoReg c1 then
      if Z.of_nat (String.length (ZKAutoRegWatchDir c1)) <=? 0 then
        (c1, Some ErrAutoRegWatchDirEmpty)
      else
        let c2 :=
          if negb (endsWithSlash (ZKAutoRegWatchDir c1))
          then withAutoRegWatchDir c1 (ZKAutoRegWatchDir c1 +:+ "/")%string
          else c1 in
        (setDefaults c2, None)
    else (setDefaults c1, None).

Definition ReadConfigFile (file : FileResult) : option ConfigData * option error :=
  match file with
  | Unreadable => (None, Some ErrReadFile)
  | Undecoded partial => (Some partial, Some ErrUnmarshal)
  | Decoded configData =>
    let '(c, err) := checkConfig configData in (Some c, err)
  end.

(** What a configuration that loaded looks like. *)
Definition wellFormed (c : ConfigData) : Prop :=
  endsWithSlash (ZKSwitcherWatchDir c) = true /\
  (EnableUserAutoReg c = true -> endsWithSlash (ZKAutoRegWatchDir c) = true) /\
  (ZKSubPoolUpdateBaseDir c = "" \/ endsWithSlash (ZKSubPoolUpdateBaseDir c) = true) /\
  1 <= FetchUserListIntervalSeconds c /\
  1 <= FetchUserCoinIntervalSeconds c /\
  1 <= ZKSubPoolUpdateAckTimeout c.

(** A configuration file that leaves the intervals out. *)
Definition bareConfig : ConfigData :=
  {| ZKSwitcherWatchDir := "/stratum/userchain";
     FetchUserListIntervalSeconds := 0;
     FetchUserCoinIntervalSeconds := 0;
     EnableUserAutoReg := true;
     ZKAutoRegWatchDir := "/stratum/autoreg/";
     ZKSubPoolUpdateBaseDir := "";
     ZKSubPoolUpdateAckTimeout := 0 |}.

End ConfigFile.

(* ===================================================================== *)
(** * The user-chain manager: flushing, the coin map, the cron jobs *)
(* ===================================================================== *)

Module UserChainSync.

Import Go UserChainManager.

(** ** FlushAllToZK *)

(** [for user := range manager.userChainMap], leaving at the first error. *)
Fixpoint flushUsers (users : list string) (w : World) : option error * World :=
  match users with
  | [] => (None, w)
  | user :: rest =>
    match WriteToZK user w with
    | (Some err, w1) => (Some err, w1)
    | (None, w1) => flushUsers rest w1
    end
  end.

Definition FlushAllToZK
    (rangeUsers : gmap string UserChainInfo -> list (string * UserChainInfo))
    (w : World) : option error * World :=
  flushUsers (map fst (rangeUsers (userChainMap (manager w)))) w.

Definition valid_user_range
    (range : gmap string UserChainInfo -> list (string * UserChainInfo)) : Prop :=
  forall m, range m ≡ₚ map_to_list m.

(** The path of a user's node. *)
Definition zkPathOf (m : Manager) (userName : string) : string :=
  (ZKSwitcherWatchDir (configData m) +:+ userName)%string.

(** The version a node has after a write that went through. *)
Definition writtenVersion (zk : Zookeeper) (path : string) : Z :=
  match znodes zk !! path with
  | Some (_, version) => version + 1
  | None => 0
  end.

(** What [SetPUID] under [chain] keeps of a record: the sub-pool, the
    chain when there is one, and the ids under the other chains. *)
Definition kept (chain : string) (info info' : UserChainInfo) : Prop :=
  SubPoolName info' = SubPoolName info /\
  (ChainName info <> "" -> ChainName info' = ChainName info) /\
  forall c, c <> chain -> PUIDs info' !! c = PUIDs info !! c.

(** ** FetchUserCoinMap *)

Record UserCoinMapData := {
  UserCoin : gmap string string;
  NowDate : Z
}.

Record UserCoinMapResponse := {
  CoinErrNo : Z;
  CoinErrMsg : string;
  CoinData : UserCoinMapData
}.

(** Decoding into a [map[string]string]. *)
Definition decodeMembersString (members : list (string * json)) (old : gmap string string)
    : option (gmap string string) :=
  fold_left
    (fun acc member =>
       match acc with
       | Some m =>
         match decodeString "" (snd member) with
         | Some s => Some (<[fst member := s]> m)
         | None => None
         end
       | None => None
       end)
    members (Some old).

Definition decodeMapString (old : gmap string string) (v : json)
    : option (gmap string string) :=
  match v with
  | JNull => Some ∅
  | JObj members => decodeMembersString members old
  | _ => None
  end.

Definition decodeUserCoinMapDataMember (acc : option UserCoinMapData)
    (member : string * json) : option UserCoinMapData :=
  match acc with
  | None => None
  | Some d =>
    let key := foldKey (fst member) in
    if String.eqb key "user_coin" then
      option_map (fun coins => {| UserCoin := coins; NowDate := NowDate d |})
                 (decodeMapString (UserCoin d) (snd member))
    else if String.eqb key "now_date" then
      option_map (fun date => {| UserCoin := UserCoin d; NowDate := date |})
                 (decodeInt int64_min int64_max (NowDate d) (snd member))
    else Some d
  end.

(** Decoding into the [Data UserCoinMapData] field, a struct. *)
Definition decodeUserCoinMapData (old : UserCoinMapData) (v : json)
    : option UserCoinMapData :=
  match v with
  | JNull => Some old
  | JObj members => fold_left decodeUserCoinMapDataMember members (Some old)
  | _ => None
  end.

Definition emptyUserCoinMapResponse : UserCoinMapResponse :=
  {| CoinErrNo := 0; CoinErrMsg := ""; CoinData := {| UserCoin := ∅; NowDate := 0 |} |}.

Definition decodeUserCoinMapMember (acc : option UserCoinMapResponse)
    (member : string * json) : option UserCoinMapResponse :=
  match acc with
  | None => None
  | Some r =>
    let key := foldKey (fst member) in
    if String.eqb key "err_no" then
      option_map (fun z => {| CoinErrNo := z; CoinErrMsg := CoinErrMsg r;
                              CoinData := CoinData r |})
                 (decodeInt int64_min int64_max (CoinErrNo r) (snd member))
    else if String.eqb key "err_msg" then
      option_map (fun msg => {| CoinErrNo := CoinErrNo r; CoinErrMsg := msg;
                                CoinData := CoinData r |})
                 (decodeString (CoinErrMsg r) (snd member))
    else if String.eqb key "data" then
      option_map (fun d => {| CoinErrNo := CoinErrNo r; CoinErrMsg := CoinErrMsg r;
                              CoinData := d |})
                 (decodeUserCoinMapData (CoinData r) (snd member))
    else Some r
  end.

(** [json.Unmarshal(body, userCoinMapResponse)]. *)
Definition UnmarshalUserCoinMapResponse (body : Body) : option UserCoinMapResponse :=
  match body with
  | Malformed => None
  | Document JNull => Some emptyUserCoinMapResponse
  | Document (JObj members) =>
    fold_left decodeUserCoinMapMember members (Some emptyUserCoinMapResponse)
  | Document _ => None
  end.

(** The two other fields of [ConfigData] that [FetchUserCoinMap] reads. *)
Record CoinMapConfig := {
  UserCoinMapURL : string;
  FetchUserCoinIntervalSeconds : Z
}.

(** The URL of the request: the address and the [last_date] parameter,
    when there is one. *)
Record CoinRequest := {
  coinURL : string;
  coinLastDate : option Z
}.

Record CoinEnv := {
  httpGetCoin : CoinRequest -> HTTPResult;
  (** the order in which [range userCoinMapResponse.Data.UserCoin] yields *)
  rangeUserCoin : gmap string string -> list (string * string)
}.

(** An [int64] result, wrapped around. *)
Definition int64_wrap (z : Z) : Z := (z + 2 ^ 63) mod 2 ^ 64 - 2 ^ 63.

Definition coinRequestOf (coinConfig : CoinMapConfig) (m : Manager) : CoinRequest :=
  {| coinURL := UserCoinMapURL coinConfig;
     coinLastDate :=
       if lastRequestDate m >? 0 then
         Some (int64_wrap (lastRequestDate m
                           - int64_wrap (FetchUserCoinIntervalSeconds coinConfig)))
       else None |}.

Definition withLastRequestDate (m : Manager) (date : Z) : Manager :=
  {| configData := configData m; userChainMap := userChainMap m;
     lastPUID := lastPUID m; lastRequestDate := date |}.

(** The chain stored for a user, if the user has a record. *)
Definition chainOf (m : Manager) (userName : string) : option string :=
  ChainName <$> userChainMap m !! userName.

(** The pairs the loop of [FetchUserCoinMap] goes through. *)
Definition fetchedCoins (coinConfig : CoinMapConfig) (env : CoinEnv) (m : Manager)
    : list (string * string) :=
  match httpGetCoin env (coinRequestOf coinConfig m) with
  | HTTPBody body =>
    match UnmarshalUserCoinMapResponse body with
    | Some response =>
      if CoinErrNo response =? 0 then rangeUserCoin env (UserCoin (CoinData response))
      else []
    | None => []
    end
  | _ => []
  end.

Section CoinMap.

Variable lowerUnicode : string -> string.

(** The body of [for puname, chain := range userCoinMapResponse.Data.UserCoin]. *)
Definition applyUserCoin (update : bool) (w : World) (entry : string * string) : World :=
  let '(puname, chain) := entry in
  let puname := RegularUserName lowerUnicode (manager w) puname in
  let w1 := withManager w (SetChain puname chain (manager w)) in
  if update then snd (WriteToZK puname w1) else w1.

Definition FetchUserCoinMap (coinConfig : CoinMapConfig) (update : bool) (env : CoinEnv)
    (w : World) : option error * World :=
  match httpGetCoin env (coinRequestOf coinConfig (manager w)) with
  | HTTPRequestFailed => (Some ErrHTTPRequest, w)
  | HTTPReadFailed => (Some ErrHTTPFetchBody, w)
  | HTTPBody body =>
    match UnmarshalUserCoinMapResponse body with
    | None => (Some ErrParseResult, w)
    | Some userCoinMapResponse =>
      if negb (CoinErrNo userCoinMapResponse =? 0) then (Some ErrAPIReturned, w)
      else
        let w0 :=
          withManager w (withLastRequestDate (manager w)
                           (NowDate (CoinData userCoinMapResponse))) in
        (None,
         fold_left (applyUserCoin update)
                   (rangeUserCoin env (UserCoin (CoinData userCoinMapResponse))) w0)
    end
  end.

(** ** The cron jobs *)



End CoinMap.

(** What a setter makes of the record it finds or makes. *)
Definition setterInfo (call : SetterCall) (info : UserChainInfo) : UserChainInfo :=
  match call with
  | CallSetPUID _ chain puid =>
    {| userName := userName info;
       ChainName := if String.eqb (ChainName info) "" then chain else ChainName info;
       SubPoolName := SubPoolName info;
       PUIDs := <[chain := puid]> (PUIDs info) |}
  | CallSetChain _ chain =>
    {| userName := userName info; ChainName := chain;
       SubPoolName := SubPoolName info; PUIDs := PUIDs info |}
  | CallSetSubPool _ subpool =>
    {| userName := userName info; ChainName := ChainName info;
       SubPoolName := subpool; PUIDs := PUIDs info |}
  end.

(** A registry answer [{"err_no":0,"data":{"user_coin":{..},"now_date":..}}]. *)
Definition userCoinBody (users : list (string * string)) (nowDate : Z) : Body :=
  Document (JObj [("err_no", JInt 0); ("err_msg", JStr "");
                  ("data", JObj [("user_coin",
                                  JObj (map (fun user => (fst user, JStr (snd user))) users));
                                 ("now_date", JInt nowDate)])]).

Definition answeringCoin (body : Body) : CoinEnv :=
  {| httpGetCoin := fun _ => HTTPBody body; rangeUserCoin := map_to_list |}.

Definition exampleCoinConfig : CoinMapConfig :=
  {| UserCoinMapURL := "http://registry/usercoin"; FetchUserCoinIntervalSeconds := 60 |}.

(** Alice as in [worldAlice5], with a ZooKeeper that loses every call. *)
Definition worldAlice5Down : World :=
  {| manager := manager worldAlice5;
     zookeeper := {| znodes := ∅; zkCalls := []; zkLost := fun _ => true |} |}.

(** A registry for the user ids that cannot be reached. *)
Definition unreachable : FetchEnv :=
  {| httpGet := fun _ => HTTPRequestFailed; rangeData := map_to_list |}.

End UserChainSync.

(* ===================================================================== *)
(** * Properties of the chain switcher *)
(* ===================================================================== *)

Module ChainSwitcherFacts.

Import ChainSwitcher.

(** ** The order of [float64] *)

Lemma SFltb_asym (a b : spec_float) : SFltb a b = true -> SFltb b a = false.
Proof.
  unfold SFltb.
  destruct a as [sa | sa | | sa ma ea], b as [sb | sb | | sb mb eb]; simpl;
    try destruct sa; try destruct sb; simpl; try congruence.
  all: rewrite (Z.compare_antisym ea eb);
    change (Pos.compare_cont Eq mb ma) with (Pos.compare mb ma);
    change (Pos.compare_cont Eq ma mb) with (Pos.compare ma mb);
    rewrite (Pos.compare_antisym ma mb);
    destruct (ea ?= eb), (ma ?= mb)%positive; simpl; congruence.
Qed.

Lemma SFltb_irrefl (a : spec_float) : SFltb a a = false.
Proof.
  destruct (SFltb a a) eqn:E; [| reflexivity].
  pose proof (SFltb_asym _ _ E). congruence.
Qed.

(** Above zero stays above zero when one goes up. *)
Lemma SFltb_zero_trans (a b : spec_float) :
  SFltb float64_zero a = true -> SFltb a b = true -> SFltb float64_zero b = true.
Proof.
  unfold SFltb, float64_zero.
  destruct a as [sa | sa | | sa ma ea], b as [sb | sb | | sb mb eb]; simpl;
    try destruct sa; try destruct sb; simpl; congruence.
Qed.

Lemma SFleb_zero_not_pos (a : spec_float) :
  SFleb a float64_zero = true -> SFltb float64_zero a = false.
Proof.
  unfold SFleb, SFltb, float64_zero.
  destruct a as [sa | sa | | sa ma ea]; simpl; try destruct sa; simpl; congruence.
Qed.

(** ** The selection loop *)

Lemma selectLoop_snoc cfg l entry :
  selectLoop cfg (l ++ [entry]) = selectStep cfg (selectLoop cfg l) entry.
Proof. unfold selectLoop. now rewrite fold_left_app. Qed.

Lemma selectLoop_from_entry cfg l : from_entry cfg l (selectLoop cfg l).
Proof.
  induction l as [| [chain record] l IH] using rev_ind.
  - now left.
  - rewrite selectLoop_snoc.
    assert (Hold : from_entry cfg (l ++ [(chain, record)]) (selectLoop cfg l)).
    { destruct IH as [-> | (c & r & Hin & Hmap & Hh & Hpos)]; [now left |].
      right. exists c, r. rewrite elem_of_app. auto. }
    destruct (selectLoop cfg l) as [large best] eqn:Eacc.
    unfold selectStep, float64_gt.
    destruct (SFltb large (DispatchHashrate record)) eqn:Egt; [| exact Hold].
    destruct (ChainNameMap cfg !! chain) as [name |] eqn:Emap; [| exact Hold].
    right. exists chain, record. simpl. repeat split; auto.
    + rewrite elem_of_app, list_elem_of_singleton. now right.
    + destruct IH as [Hinit | (c & r & _ & _ & _ & Hpos)].
      * inversion Hinit; subst. exact Egt.
      * simpl in Hpos. eapply SFltb_zero_trans; eauto.
Qed.

(** The large hashrate never goes below zero. *)
Lemma selectLoop_nonneg cfg l :
  fst (selectLoop cfg l) = float64_zero \/ SFltb float64_zero (fst (selectLoop cfg l)) = true.
Proof.
  destruct (selectLoop_from_entry cfg l) as [-> | (c & r & _ & _ & _ & Hpos)]; auto.
Qed.

(** A chain that is not in the rename map leaves both variables alone. *)
Lemma selectStep_unmapped cfg acc chain record :
  ChainNameMap cfg !! chain = None -> selectStep cfg acc (chain, record) = acc.
Proof.
  intros Hmap. destruct acc as [large best]. unfold selectStep. rewrite Hmap.
  now destruct (float64_gt _ _).
Qed.

(** So does a chain whose hashrate is not above the large one. *)
Lemma selectStep_not_above cfg large best chain record :
  SFltb large (DispatchHashrate record) = false ->
  selectStep cfg (large, best) (chain, record) = (large, best).
Proof. intros H. unfold selectStep, float64_gt. now rewrite H. Qed.

Lemma selectStep_nonpositive cfg l chain record :
  SFleb (DispatchHashrate record) float64_zero = true ->
  selectStep cfg (selectLoop cfg l) (chain, record) = selectLoop cfg l.
Proof.
  intros Hle. pose proof (selectLoop_nonneg cfg l) as Hnn.
  destruct (selectLoop cfg l) as [large best]. simpl in Hnn.
  apply selectStep_not_above.
  destruct (SFltb large (DispatchHashrate record)) eqn:E; [| reflexivity].
  apply SFleb_zero_not_pos in Hle.
  destruct Hnn as [-> | Hpos]; [congruence |].
  rewrite (SFltb_zero_trans _ _ Hpos E) in Hle. discriminate.
Qed.

(** With no chain both in the rename map and above zero, the loop ends as
    it started. *)
Lemma selectLoop_none cfg l :
  (forall chain record, (chain, record) ∈ l ->
     ChainNameMap cfg !! chain = None \/ SFltb float64_zero (DispatchHashrate record) = false) ->
  selectLoop cfg l = (float64_zero, "").
Proof.
  intros Hall.
  destruct (selectLoop_from_entry cfg l) as [-> | (c & r & Hin & Hmap & Hh & Hpos)];
    [reflexivity |].
  destruct (Hall c r Hin) as [Hn | Hn]; [congruence |].
  rewrite Hh in Hn. congruence.
Qed.

Lemma yields_to_tail cfg chain record e l :
  yields_to cfg chain record (e :: l) -> yields_to cfg chain record l.
Proof. intros H c r Hin. apply H. now apply list_elem_of_further. Qed.

Lemma select_keeps cfg chain record name l :
  yields_to cfg chain record l ->
  fold_left (selectStep cfg) l (DispatchHashrate record, name) = (DispatchHashrate record, name).
Proof.
  induction l as [| [c r] l IH]; intros Hy; [reflexivity |].
  cbn [fold_left]. rewrite <- (IH (yields_to_tail _ _ _ _ _ Hy)) at 2. f_equal.
  destruct (Hy c r (list_elem_of_here _ _)) as [Heq | [Hun | Hlt]].
  - inversion Heq; subst. apply selectStep_not_above, SFltb_irrefl.
  - now apply selectStep_unmapped.
  - apply selectStep_not_above. now apply SFltb_asym.
Qed.

Lemma select_reaches cfg chain record name l : forall large best,
  ChainNameMap cfg !! chain = Some name ->
  SFltb large (DispatchHashrate record) = true ->
  (chain, record) ∈ l ->
  yields_to cfg chain record l ->
  fold_left (selectStep cfg) l (large, best) = (DispatchHashrate record, name).
Proof.
  induction l as [| [c r] l IH]; intros large best Hmap Hbelow Hin Hy.
  - now apply elem_of_nil in Hin.
  - cbn [fold_left].
    pose proof (yields_to_tail _ _ _ _ _ Hy) as Hy'.
    destruct (Hy c r (list_elem_of_here _ _)) as [Heq | [Hun | Hlt]].
    + inversion Heq; subst.
      unfold selectStep, float64_gt. rewrite Hbelow, Hmap.
      now apply (select_keeps cfg chain).
    + rewrite selectStep_unmapped by exact Hun.
      apply IH; auto.
      apply elem_of_cons in Hin as [Heq | Hin]; [| exact Hin].
      inversion Heq; subst. congruence.
    + assert (Hin' : (chain, record) ∈ l).
      { apply elem_of_cons in Hin as [Heq | Hin]; [| exact Hin].
        inversion Heq; subst. rewrite SFltb_irrefl in Hlt. discriminate. }
      unfold selectStep, float64_gt.
      destruct (SFltb large (DispatchHashrate r)); [| now apply IH].
      destruct (ChainNameMap cfg !! c); now apply IH.
Qed.

(** ** From the list [range] yields to the map it ranges over *)

Lemma elem_of_range range (m : gmap string ChainRecord) chain record :
  valid_range range -> (chain, record) ∈ range m <-> m !! chain = Some record.
Proof. intros Hr. rewrite (Hr m). apply elem_of_map_to_list. Qed.

Lemma valid_range_map_to_list : valid_range map_to_list.
Proof. intros m. reflexivity. Qed.

(** A chain of the rename map, above zero and strictly above every other
    chain of the rename map, is the one the loop ends with. *)
Lemma bestChainOf_largest cfg range (coins : gmap string ChainRecord) chain record name :
  valid_range range ->
  coins !! chain = Some record ->
  ChainNameMap cfg !! chain = Some name ->
  SFltb float64_zero (DispatchHashrate record) = true ->
  (forall c r, c <> chain -> coins !! c = Some r -> is_Some (ChainNameMap cfg !! c) ->
     SFltb (DispatchHashrate r) (DispatchHashrate record) = true) ->
  selectLoop cfg (range coins) = (DispatchHashrate record, name).
Proof.
  intros Hr Hin Hmap Hpos Hmax. unfold selectLoop.
  apply (select_reaches cfg chain); auto.
  - now apply elem_of_range.
  - intros c r Hcr. apply (elem_of_range _ _ _ _ Hr) in Hcr.
    destruct (decide (c = chain)) as [-> | Hne].
    + left. congruence.
    + destruct (ChainNameMap cfg !! c) eqn:Ec; [| now right; left].
      right; right. apply (Hmax c); auto.
Qed.

(** ** updateCurrentChain and updateChainPass, case by case *)

Lemma eqb_empty_false (s : string) : s <> "" -> String.eqb s "" = false.
Proof. intros H. now apply String.eqb_neq. Qed.

Lemma updateCurrentChain_decoded cfg env st body record :
  api env = GotBody body (Some record) ->
  updateCurrentChain cfg env st =
    let next := nextChainName cfg env st record in
    if String.eqb (currentChainName st) next then
      Returned {| currentChainName := next; commandID := commandID st |} []
    else if insertOk env then
      Returned {| currentChainName := next; commandID := commandID st |}
               [AuditRow (Algorithm cfg) (currentChainName st) next body]
    else Exited [].
Proof.
  intros Hapi. unfold updateCurrentChain, nextChainName. rewrite Hapi.
  destruct (String.eqb (bestChainOf _ _) "") eqn:Eb; simpl.
  - rewrite String.eqb_refl. simpl. now destruct st.
  - now destruct (String.eqb (currentChainName st) _), (insertOk env).
Qed.

Lemma updateCurrentChain_undecoded cfg env st :
  (forall body record, api env <> GotBody body (Some record)) ->
  updateCurrentChain cfg env st = Returned st [].
Proof.
  intros Hapi. unfold updateCurrentChain.
  destruct (api env) as [| | body [record |]]; try reflexivity.
  now destruct (Hapi body record).
Qed.

(** ** The command and the audit row of a pass *)

(** The commands of a pass: the current chain when it is not empty. *)
Lemma updateChainPass_commands cfg env st st' events :
  updateChainPass cfg env st = Returned st' events ->
  commands events =
    if String.eqb (currentChainName st') "" then []
    else [mkCommand (uint64_succ (commandID st)) (now env) (currentChainName st')].
Proof.
  unfold updateChainPass.
  destruct (updateCurrentChain cfg env st) as [st1 events1 |] eqn:Hupdate; [| discriminate].
  assert (Hnone : commands events1 = [] /\ commandID st1 = commandID st).
  { revert Hupdate. unfold updateCurrentChain.
    destruct (api env) as [| | body [record |]]; try (intros H; inversion H; now subst).
    destruct (String.eqb (bestChainOf _ _) ""), (negb _), (insertOk env);
      intros H; inversion H; now subst. }
  destruct Hnone as [Hnone Hid].
  destruct (String.eqb (currentChainName st1) "") eqn:E; simpl;
    intros H; inversion H; subst; simpl; rewrite E; [exact Hnone |].
  unfold commands in *. rewrite omap_app, Hnone, Hid. reflexivity.
Qed.

(** C1 (as the code has it). A pass that comes back to the loop writes one
    command carrying the current chain whenever the current chain is not
    empty, whether or not the chain changed in this pass, and none while it
    is empty; so a change yields exactly one command carrying the new
    chain, and passes without a change send the chain again. The audit row
    is what follows the change: one row when the chain differs from the
    previous one, none otherwise. A pass that does not come back wrote
    nothing. *)
Theorem command_written_every_pass cfg env st :
  match updateChainPass cfg env st with
  | Returned st' events =>
    commands events =
      (if String.eqb (currentChainName st') "" then []
       else [mkCommand (uint64_succ (commandID st)) (now env) (currentChainName st')]) /\
    length (auditRows events) =
      (if String.eqb (currentChainName st) (currentChainName st') then 0%nat else 1%nat)
  | Exited events => events = [] /\ insertOk env = false
  end.
Proof.
  unfold updateChainPass.
  destruct (api env) as [| | body [record |]] eqn:Hapi.
  1,2,4: rewrite updateCurrentChain_undecoded by (intros b r; rewrite Hapi; discriminate);
    destruct (String.eqb (currentChainName st) "") eqn:E; simpl;
    rewrite ?String.eqb_refl, ?E; auto.
  rewrite (updateCurrentChain_decoded _ _ _ _ _ Hapi). cbv zeta.
  set (next := nextChainName cfg env st record).
  destruct (String.eqb (currentChainName st) next) eqn:Esame;
    [| destruct (insertOk env); [| auto]];
    simpl; destruct (String.eqb next "") eqn:Enext; simpl; rewrite ?Esame, ?Enext; auto.
Qed.

(** C1, the claim as written fails: the current chain is already "chainB",
    the pass selects "chainB" again, and a command is written all the same;
    over three passes from "chainA" the one change is followed by three
    commands. *)
Lemma command_resent_without_change :
  updateChainPass cfgB (envAB true) {| currentChainName := "chainB"; commandID := 7 |} =
    Returned {| currentChainName := "chainB"; commandID := 8 |}
             [KafkaWrite (mkCommand 8 "2019-01-01 00:00:00" "chainB")] /\
  eventsOf (updateChain cfgB [envAB true; envAB true; envAB true]
              {| currentChainName := "chainA"; commandID := 0 |}) =
    [AuditRow "sha256" "chainA" "chainB" "{coins}";
     KafkaWrite (mkCommand 1 "2019-01-01 00:00:00" "chainB");
     KafkaWrite (mkCommand 2 "2019-01-01 00:00:00" "chainB");
     KafkaWrite (mkCommand 3 "2019-01-01 00:00:00" "chainB")].
Proof. split; vm_compute; reflexivity. Qed.

(** C2 (as the code has it). When the pass detects a change, the command
    is written after the audit row and only if the row was written: a
    failed insert ends the process before anything is sent. *)
Theorem publish_follows_audit_row cfg env st body record :
  api env = GotBody body (Some record) ->
  bestChainOf cfg (rangeCoins env (Coins record)) <> "" ->
  bestChainOf cfg (rangeCoins env (Coins record)) <> currentChainName st ->
  updateChainPass cfg env st =
    let bestChain := bestChainOf cfg (rangeCoins env (Coins record)) in
    if insertOk env then
      Returned {| currentChainName := bestChain; commandID := uint64_succ (commandID st) |}
               [AuditRow (Algorithm cfg) (currentChainName st) bestChain body;
                KafkaWrite (mkCommand (uint64_succ (commandID st)) (now env) bestChain)]
    else Exited [].
Proof.
  intros Hapi Hne Hchg. unfold updateChainPass.
  rewrite (updateCurrentChain_decoded _ _ _ _ _ Hapi). cbv zeta.
  unfold nextChainName. rewrite (eqb_empty_false _ Hne).
  assert (E : String.eqb (currentChainName st) (bestChainOf cfg (rangeCoins env (Coins record))) = false).
  { apply String.eqb_neq. congruence. }
  rewrite E. destruct (insertOk env); [| reflexivity].
  simpl. now rewrite (eqb_empty_false _ Hne).
Qed.

Lemma publish_follows_audit_row_witness :
  updateChainPass cfgB (envAB true) {| currentChainName := "chainA"; commandID := 0 |} =
    Returned {| currentChainName := "chainB"; commandID := 1 |}
             [AuditRow "sha256" "chainA" "chainB" "{coins}";
              KafkaWrite (mkCommand 1 "2019-01-01 00:00:00" "chainB")].
Proof.
  refine (publish_follows_audit_row cfgB (envAB true)
            {| currentChainName := "chainA"; commandID := 0 |} "{coins}"
            {| Coins := coinsAB |} eq_refl _ _);
    vm_compute; discriminate.
Defined.

(** C2, the claim as written fails: the chain changes from "chainA" to
    "chainB", the insert fails, and the pass ends the process with no
    command written. *)
Lemma no_publish_after_failed_audit :
  bestChainOf cfgB (map_to_list coinsAB) = "chainB" /\
  updateChainPass cfgB (envAB false) {| currentChainName := "chainA"; commandID := 0 |} =
    Exited [].
Proof. split; vm_compute; reflexivity. Qed.

(** ** Which chain a pass selects *)

(** C3 (as the code has it). Among the chains of the dispatch record that
    the rename map knows, the pass selects the renamed chain whose hashrate
    is strictly the largest, provided that hashrate is above zero; a chain
    the rename map does not know leaves the loop's variables alone whatever
    its hashrate, so that the selected name is always the rename of a known
    chain above zero; when no known chain is above zero the pass returns
    with the state it was given; and the current chain after a pass is the
    selected one, or the previous one when nothing was selected. *)
Theorem largest_known_chain_above_zero_selected cfg env st body record :
  valid_range (rangeCoins env) ->
  api env = GotBody body (Some record) ->
  let coins := Coins record in
  let bestChain := bestChainOf cfg (rangeCoins env coins) in
  (forall chain r name,
     coins !! chain = Some r ->
     ChainNameMap cfg !! chain = Some name ->
     SFltb float64_zero (DispatchHashrate r) = true ->
     (forall c r', c <> chain -> coins !! c = Some r' -> is_Some (ChainNameMap cfg !! c) ->
        SFltb (DispatchHashrate r') (DispatchHashrate r) = true) ->
     bestChain = name) /\
  (forall acc chain r,
     ChainNameMap cfg !! chain = None -> selectStep cfg acc (chain, r) = acc) /\
  (bestChain = "" \/
   exists chain r,
     coins !! chain = Some r /\ ChainNameMap cfg !! chain = Some bestChain /\
     SFltb float64_zero (DispatchHashrate r) = true) /\
  ((forall chain r, coins !! chain = Some r ->
      ChainNameMap cfg !! chain = None \/ SFltb float64_zero (DispatchHashrate r) = false) ->
   updateCurrentChain cfg env st = Returned st []) /\
  (forall st' events, updateCurrentChain cfg env st = Returned st' events ->
     currentChainName st' =
       if String.eqb bestChain "" then currentChainName st else bestChain).
Proof.
  intros Hr Hapi coins bestChain. repeat split.
  - intros chain r name Hin Hmap Hpos Hmax. unfold bestChain, bestChainOf.
    now rewrite (bestChainOf_largest cfg _ coins chain r name Hr Hin Hmap Hpos Hmax).
  - intros acc chain r. apply selectStep_unmapped.
  - unfold bestChain, bestChainOf.
    destruct (selectLoop_from_entry cfg (rangeCoins env coins))
      as [-> | (c & r & Hin & Hmap & Hh & Hpos)]; [now left |].
    right. exists c, r. rewrite Hh. repeat split; auto.
    now apply (elem_of_range _ _ _ _ Hr).
  - intros Hnone.
    rewrite (updateCurrentChain_decoded _ _ _ _ _ Hapi). cbv zeta.
    unfold nextChainName, bestChainOf. fold coins.
    rewrite selectLoop_none.
    + simpl. rewrite String.eqb_refl. now destruct st.
    + intros c r Hin. apply Hnone. now apply (elem_of_range _ _ _ _ Hr).
  - intros st' events.
    rewrite (updateCurrentChain_decoded _ _ _ _ _ Hapi). cbv zeta.
    unfold nextChainName. fold coins. fold bestChain.
    destruct (String.eqb (currentChainName st) _); [| destruct (insertOk env)];
      intros H; inversion H; reflexivity.
Qed.

(** The worked example: A at 5 without a rename, B at 9 renamed "chainB". *)
Lemma largest_known_chain_above_zero_selected_witness :
  bestChainOf cfgB (map_to_list coinsAB) = "chainB".
Proof.
  refine (proj1 (largest_known_chain_above_zero_selected cfgB (envAB true)
                   {| currentChainName := ""; commandID := 0 |} "{coins}"
                   {| Coins := coinsAB |} valid_range_map_to_list eq_refl)
                "B" (record_of 9) "chainB" eq_refl eq_refl eq_refl _).
  intros c r' Hne _ [name Hname]. exfalso. apply Hne.
  simpl in Hname. apply lookup_insert_Some in Hname as [[-> _] | [_ Hname]]; [reflexivity |].
  now rewrite lookup_empty in Hname.
Defined.

(** C3, the claim as written fails: B is the only chain of the dispatch
    record the rename map knows, hence the one with the largest hashrate
    among them, and it stands at 0; the loop selects nothing and the
    current chain stays "chainA". *)
Lemma lone_known_chain_at_zero_not_selected :
  coinsB0 !! "B" = Some (record_of 0) /\
  ChainNameMap cfgB !! "B" = Some "chainB" /\
  (forall c r, c <> "B" -> coinsB0 !! c = Some r -> is_Some (ChainNameMap cfgB !! c) ->
     SFltb (DispatchHashrate r) (DispatchHashrate (record_of 0)) = true) /\
  bestChainOf cfgB (map_to_list coinsB0) = "" /\
  bestChainOf cfgB (map_to_list coinsB0) <> "chainB" /\
  updateCurrentChain cfgB envB0 {| currentChainName := "chainA"; commandID := 0 |} =
    Returned {| currentChainName := "chainA"; commandID := 0 |} [].
Proof.
  repeat split; try (vm_compute; congruence).
  intros c r Hne Hc _. exfalso. apply Hne. unfold coinsB0 in Hc.
  apply lookup_insert_Some in Hc as [[-> _] | [_ Hc]]; [reflexivity |].
  now rewrite lookup_empty in Hc.
Qed.

(** ** Chains at or below zero *)

Lemma updateCurrentChain_quiet cfg env st :
  no_chain_above_zero cfg env -> updateCurrentChain cfg env st = Returned st [].
Proof.
  unfold no_chain_above_zero.
  destruct (api env) as [| | body [record |]] eqn:Hapi; intros Hq.
  1,2,4: apply updateCurrentChain_undecoded; intros b r; rewrite Hapi; discriminate.
  destruct Hq as [Hr Hle].
  rewrite (updateCurrentChain_decoded _ _ _ _ _ Hapi). cbv zeta.
  unfold nextChainName, bestChainOf. rewrite selectLoop_none.
  - simpl. rewrite String.eqb_refl. now destruct st.
  - intros c r Hin. apply (elem_of_range _ _ _ _ Hr) in Hin.
    destruct (ChainNameMap cfg !! c) as [name |] eqn:Emap; [right | now left].
    apply SFleb_zero_not_pos, (Hle c r Hin). now rewrite Emap.
Qed.

Lemma updateChain_quiet cfg envs : forall st,
  Forall (no_chain_above_zero cfg) envs ->
  currentChainName st = "" ->
  updateChain cfg envs st = Returned st [].
Proof.
  induction envs as [| env envs IH]; intros st Hall Hempty; [reflexivity |].
  inversion Hall as [| ? ? Hq Hall']; subst. simpl.
  unfold updateChainPass. rewrite (updateCurrentChain_quiet _ _ _ Hq), Hempty. simpl.
  rewrite (IH st Hall' Hempty). reflexivity.
Qed.

(** C10. A chain whose hashrate is at or below zero never replaces the
    selection, wherever it comes in the loop; if every chain of the rename
    map is at or below zero the pass keeps the current chain; from an empty
    current chain, any number of such passes writes no command; and no
    pass that ends with an empty current chain writes one. *)
Theorem nonpositive_hashrate_never_selected cfg :
  (forall l chain record,
     SFleb (DispatchHashrate record) float64_zero = true ->
     selectStep cfg (selectLoop cfg l) (chain, record) = selectLoop cfg l) /\
  (forall env st,
     no_chain_above_zero cfg env ->
     updateCurrentChain cfg env st = Returned st [] /\
     forall st' events, updateChainPass cfg env st = Returned st' events ->
       currentChainName st' = currentChainName st) /\
  (forall envs st,
     Forall (no_chain_above_zero cfg) envs ->
     currentChainName st = "" ->
     updateChain cfg envs st = Returned st []) /\
  (forall env st st' events,
     updateChainPass cfg env st = Returned st' events ->
     currentChainName st' = "" ->
     commands events = []).
Proof.
  split; [| split; [| split]]; cycle 3.
  - intros env st st' events Hpass Hempty.
    rewrite (updateChainPass_commands _ _ _ _ _ Hpass), Hempty. reflexivity.
  - intros l chain record. apply selectStep_nonpositive.
  - intros env st Hq. split; [now apply updateCurrentChain_quiet |].
    intros st' events. unfold updateChainPass.
    rewrite (updateCurrentChain_quiet _ _ _ Hq).
    destruct (negb _); intros H; inversion H; reflexivity.
  - intros envs st. apply updateChain_quiet.
Qed.

Lemma envB0_quiet : no_chain_above_zero cfgB envB0.
Proof.
  split; [apply valid_range_map_to_list |].
  intros chain r Hc _. simpl in Hc. unfold coinsB0 in Hc.
  apply lookup_insert_Some in Hc as [[_ <-] | [_ Hc]]; [reflexivity |].
  now rewrite lookup_empty in Hc.
Defined.

Lemma nonpositive_hashrate_never_selected_witness :
  selectStep cfgB (selectLoop cfgB (map_to_list coinsAB)) ("C", record_of (-3)) =
    selectLoop cfgB (map_to_list coinsAB) /\
  updateChain cfgB [envB0; envB0] {| currentChainName := ""; commandID := 0 |} =
    Returned {| currentChainName := ""; commandID := 0 |} [].
Proof.
  split.
  - apply (proj1 (nonpositive_hashrate_never_selected cfgB)). reflexivity.
  - apply (proj1 (proj2 (proj2 (nonpositive_hashrate_never_selected cfgB)))); [| reflexivity].
    repeat constructor; apply envB0_quiet.
Defined.

End ChainSwitcherFacts.

(* ===================================================================== *)
(** * Properties of the user-chain manager *)
(* ===================================================================== *)

Module UserChainManagerFacts.

Import Go UserChainManager.

(** ** Bytes and lower-casing *)

Lemma lowerByte_idempotent (c : ascii) : lowerByte (lowerByte c) = lowerByte c.
Proof. destruct c as [[] [] [] [] [] [] [] []]; reflexivity. Qed.

Lemma lowerByte_ascii (c : ascii) :
  (N_of_ascii (lowerByte c) <? 128)%N = (N_of_ascii c <? 128)%N.
Proof. destruct c as [[] [] [] [] [] [] [] []]; reflexivity. Qed.

Lemma isASCII_mapBytes_lowerByte (s : string) :
  isASCII (mapBytes lowerByte s) = isASCII s.
Proof.
  induction s as [| c s IH]; [reflexivity |].
  simpl. now rewrite lowerByte_ascii, IH.
Qed.

Lemma mapBytes_lowerByte_idempotent (s : string) :
  mapBytes lowerByte (mapBytes lowerByte s) = mapBytes lowerByte s.
Proof.
  induction s as [| c s IH]; [reflexivity |].
  simpl. now rewrite lowerByte_idempotent, IH.
Qed.

Section ToLowerFacts.

Variable lowerUnicode : string -> string.

(** What is assumed of the Unicode table: a lower-cased string is left as
    it is by another lower-casing. *)
Hypothesis lowerUnicode_stable :
  forall s, isASCII s = false -> ToLower lowerUnicode (lowerUnicode s) = lowerUnicode s.

Lemma ToLower_idempotent (s : string) :
  ToLower lowerUnicode (ToLower lowerUnicode s) = ToLower lowerUnicode s.
Proof.
  unfold ToLower at 2 3. destruct (isASCII s) eqn:E.
  - unfold ToLower. now rewrite isASCII_mapBytes_lowerByte, E, mapBytes_lowerByte_idempotent.
  - now apply lowerUnicode_stable.
Qed.

End ToLowerFacts.

(** ** Slices *)

Lemma length_substring_le (k : nat) (s : string) :
  (String.length (substring 0 k s) <= k)%nat.
Proof.
  revert s. induction k as [| k IH]; intros [| c s]; simpl; try lia.
  specialize (IH s). lia.
Qed.

(** The last match of a one-byte separator starts before the end. *)
Lemma LastIndexFrom_byte_lt (s : string) (sep : ascii) : forall i,
  LastIndexFrom i s (String sep "") = -1 \/
  i <= LastIndexFrom i s (String sep "") < i + Z.of_nat (String.length s).
Proof.
  induction s as [| c s IH]; intros i.
  - now left.
  - cbn [LastIndexFrom String.length]. cbv zeta.
    destruct (IH (i + 1)) as [-> | Hb].
    + replace (0 <=? -1) with false by reflexivity.
      destruct (String.prefix (String sep "") (String c s)); [right; lia | now left].
    + destruct (0 <=? LastIndexFrom (i + 1) s (String sep "")); [right; lia |].
      destruct (String.prefix (String sep "") (String c s)); [right; lia | now left].
Qed.

(** Cutting at the last separator makes a non-empty string shorter. *)
Lemma slice_LastIndex_shorter (s : string) (sep : ascii) :
  s <> "" ->
  (String.length (slice s 0 (LastIndex s (String sep ""))) < String.length s)%nat.
Proof.
  intros Hne. unfold slice, LastIndex.
  pose proof (length_substring_le
                (Z.to_nat (LastIndexFrom 0 s (String sep "") - 0)) s) as Hle.
  destruct (LastIndexFrom_byte_lt s sep 0) as [E | Hb].
  - rewrite E in *. simpl in Hle. destruct s; [congruence | simpl in *; lia].
  - change (Z.to_nat 0) with 0%nat. lia.
Qed.

(** ** RegularUserName *)

(** C5 (as the code has it). One application strips the suffix after the
    last underscore and nothing more, so a second application is the
    identity exactly on results that have no underscore left: for either
    setting of the flag, a result without an underscore is a fixed point;
    and in a case-sensitive deployment a result that still has one is cut
    again. *)
Theorem RegularUserName_idempotent_without_underscore lowerUnicode m n :
  (forall s, isASCII s = false -> ToLower lowerUnicode (lowerUnicode s) = lowerUnicode s) ->
  let once := RegularUserName lowerUnicode m n in
  (Contains once "_" = false -> RegularUserName lowerUnicode m once = once) /\
  (StratumServerCaseInsensitive (configData m) = false ->
   Contains once "_" = true -> RegularUserName lowerUnicode m once <> once).
Proof.
  intros Hstable once. split.
  - intros Hno. unfold RegularUserName at 1. rewrite Hno.
    destruct (StratumServerCaseInsensitive (configData m)) eqn:Eflag; [| reflexivity].
    unfold once, RegularUserName. rewrite Eflag.
    now apply ToLower_idempotent.
  - intros Eflag Hyes. unfold RegularUserName at 1. rewrite Hyes, Eflag.
    intros Heq.
    assert (Hne : once <> "").
    { intros E. rewrite E in Hyes. discriminate. }
    pose proof (slice_LastIndex_shorter once "_" Hne) as Hlt.
    rewrite Heq in Hlt. lia.
Qed.

Lemma RegularUserName_idempotent_without_underscore_witness :
  RegularUserName (fun s => s) (exampleManager true) "Alice_btc" = "alice" /\
  RegularUserName (fun s => s) (exampleManager true) "alice" = "alice".
Proof.
  split; [reflexivity |].
  refine (proj1 (RegularUserName_idempotent_without_underscore
                   (fun s => s) (exampleManager true) "Alice_btc" _) eq_refl).
  intros s Hs. unfold ToLower. now rewrite Hs.
Defined.

(** C5, the claim as written fails: "a_b_c" becomes "a_b", which becomes
    "a", with the flag off and with it on; and whatever the Unicode table
    and the deployment, "a_b_c" is a name on which the second application
    changes the result of the first. *)
Lemma RegularUserName_strips_again :
  RegularUserName (fun s => s) (exampleManager false) "a_b_c" = "a_b" /\
  RegularUserName (fun s => s) (exampleManager false) "a_b" = "a" /\
  RegularUserName (fun s => s) (exampleManager true) "a_b_c" = "a_b" /\
  RegularUserName (fun s => s) (exampleManager true) "a_b" = "a" /\
  (forall lowerUnicode m,
     RegularUserName lowerUnicode m (RegularUserName lowerUnicode m "a_b_c") <>
     RegularUserName lowerUnicode m "a_b_c").
Proof.
  repeat split; try reflexivity.
  intros lowerUnicode m. unfold RegularUserName.
  destruct (StratumServerCaseInsensitive (configData m)); vm_compute; discriminate.
Qed.

(** ** SetPUID and GetChain *)

Lemma length_le_0_eqb (s : string) :
  (Z.of_nat (String.length s) <=? 0) = String.eqb s "".
Proof. destruct s; reflexivity. Qed.

Lemma GetChain_infoOrNew userName m :
  ChainName (infoOrNew m userName) = GetChain userName m.
Proof. unfold infoOrNew, GetChain. now destruct (userChainMap m !! userName). Qed.

Lemma PUIDs_infoOrNew userName chain m :
  PUIDs (infoOrNew m userName) !! chain = puidOf m userName chain.
Proof.
  unfold infoOrNew, puidOf. destruct (userChainMap m !! userName); [reflexivity |].
  apply lookup_empty.
Qed.

(** The record [SetPUID] leaves under the name. *)
Lemma SetPUID_lookup userName chain puid m :
  userChainMap (SetPUID userName chain puid m) !! userName =
    Some {| userName := UserChainManager.userName (infoOrNew m userName);
            ChainName := if String.eqb (GetChain userName m) "" then chain
                         else GetChain userName m;
            SubPoolName := SubPoolName (infoOrNew m userName);
            PUIDs := <[chain := puid]> (PUIDs (infoOrNew m userName)) |}.
Proof.
  unfold SetPUID. simpl. rewrite lookup_insert_eq, length_le_0_eqb, GetChain_infoOrNew.
  now destruct (String.eqb (GetChain userName m) "").
Qed.

Lemma SetPUID_lookup_other userName chain puid m other :
  other <> userName ->
  userChainMap (SetPUID userName chain puid m) !! other = userChainMap m !! other.
Proof. intros Hne. unfold SetPUID. simpl. now rewrite lookup_insert_ne. Qed.

Lemma puidOf_SetPUID userName chain puid m u c :
  puidOf (SetPUID userName chain puid m) u c =
    if decide (u = userName /\ c = chain) then Some puid else puidOf m u c.
Proof.
  unfold puidOf at 1. destruct (decide (u = userName)) as [-> | Hu].
  - rewrite SetPUID_lookup. simpl. rewrite lookup_insert, PUIDs_infoOrNew.
    destruct (decide (chain = c)) as [-> | Hc].
    + rewrite decide_True; auto.
    + rewrite decide_False; [reflexivity | intros [_ ->]; congruence].
  - rewrite SetPUID_lookup_other by exact Hu.
    rewrite decide_False; [reflexivity | intros [-> _]; congruence].
Qed.

Lemma GetChain_SetPUID userName chain puid m :
  GetChain userName (SetPUID userName chain puid m) =
    if String.eqb (GetChain userName m) "" then chain else GetChain userName m.
Proof. unfold GetChain at 1. now rewrite SetPUID_lookup. Qed.

(** C6. [SetPUID] records the id under the chain, leaves the ids under the
    other chains and the other users alone, makes the record when there is
    none, and sets [ChainName] only when it was empty; so for a user unknown
    before, two calls under two chains leave the first chain as
    [ChainName] and both ids. *)
Theorem SetPUID_records_id_first_chain_stays userName chain puid m :
  let m' := SetPUID userName chain puid m in
  puidOf m' userName chain = Some puid /\
  (forall chain', chain' <> chain -> puidOf m' userName chain' = puidOf m userName chain') /\
  is_Some (userChainMap m' !! userName) /\
  GetChain userName m' =
    (if String.eqb (GetChain userName m) "" then chain else GetChain userName m) /\
  (forall other, other <> userName -> userChainMap m' !! other = userChainMap m !! other) /\
  (forall chain2 puid2,
     userChainMap m !! userName = None -> chain <> "" -> chain2 <> chain ->
     let m2 := SetPUID userName chain2 puid2 m' in
     GetChain userName m2 = chain /\
     puidOf m2 userName chain = Some puid /\
     puidOf m2 userName chain2 = Some puid2).
Proof.
  intros m'. unfold m'. split; [| split; [| split; [| split; [| split]]]].
  - rewrite puidOf_SetPUID. now rewrite decide_True.
  - intros chain' Hne. rewrite puidOf_SetPUID.
    rewrite decide_False; [reflexivity | intros [_ ->]; congruence].
  - rewrite SetPUID_lookup. eauto.
  - apply GetChain_SetPUID.
  - intros other Hne. now apply SetPUID_lookup_other.
  - intros chain2 puid2 Hnew Hchain Hne. cbv zeta. split; [| split].
    + rewrite !GetChain_SetPUID.
      assert (E : GetChain userName m = "") by (unfold GetChain; now rewrite Hnew).
      rewrite E. simpl. now rewrite (proj2 (String.eqb_neq chain "") Hchain).
    + rewrite !puidOf_SetPUID. rewrite decide_False by (intros [_ ->]; congruence).
      now rewrite decide_True.
    + rewrite puidOf_SetPUID. now rewrite decide_True.
Qed.

(** [SetPUID(u,"btc",42)] then [SetPUID(u,"eth",7)] on a new manager. *)
Lemma SetPUID_records_id_first_chain_stays_witness :
  let m2 := SetPUID "bob" "eth" 7 (SetPUID "bob" "btc" 42 (exampleManager false)) in
  GetChain "bob" m2 = "btc" /\
  puidOf m2 "bob" "btc" = Some 42 /\
  puidOf m2 "bob" "eth" = Some 7.
Proof.
  refine (proj2 (proj2 (proj2 (proj2 (proj2
            (SetPUID_records_id_first_chain_stays "bob" "btc" 42 (exampleManager false))))))
          "eth" 7 eq_refl _ _); discriminate.
Defined.

(** ** WriteToZK *)

Lemma applySetter_lookup_other m call other :
  setterUser call <> other ->
  userChainMap (applySetter m call) !! other = userChainMap m !! other.
Proof.
  intros Hne. destruct call as [u c p | u c | u p]; simpl in *.
  - now apply SetPUID_lookup_other.
  - unfold SetChain. simpl. now rewrite lookup_insert_ne.
  - unfold SetSubPool. simpl. now rewrite lookup_insert_ne.
Qed.

Lemma setters_keep_unknown calls other : forall m,
  Forall (fun call => setterUser call <> other) calls ->
  userChainMap (fold_left applySetter calls m) !! other = userChainMap m !! other.
Proof.
  induction calls as [| call calls IH]; intros m Hall; [reflexivity |].
  inversion Hall as [| ? ? Hcall Hrest]; subst. cbn [fold_left].
  rewrite (IH _ Hrest). now apply applySetter_lookup_other.
Qed.

(** C9. For a name with no record in [userChainMap] (nothing was read from
    ZooKeeper under it and no setter was called with it), [WriteToZK]
    returns the does-not-exist error and the manager and the ZooKeeper
    client, the list of its calls included, are as before; such is every
    name no setter was called with since the manager was made. *)
Theorem WriteToZK_unknown_user userName :
  (forall w,
     userChainMap (manager w) !! userName = None ->
     WriteToZK userName w = (Some (ErrUserNotExists userName), w)) /\
  (forall configData calls zk,
     Forall (fun call => setterUser call <> userName) calls ->
     let w := {| manager := fold_left applySetter calls (NewUserChainManager configData);
                 zookeeper := zk |} in
     WriteToZK userName w = (Some (ErrUserNotExists userName), w) /\
     zkCalls (zookeeper (snd (WriteToZK userName w))) = zkCalls zk).
Proof.
  assert (Hunknown : forall w,
            userChainMap (manager w) !! userName = None ->
            WriteToZK userName w = (Some (ErrUserNotExists userName), w)).
  { intros w H. unfold WriteToZK. now rewrite H. }
  split; [exact Hunknown |].
  intros configData calls zk Hall w.
  assert (Hw : WriteToZK userName w = (Some (ErrUserNotExists userName), w)).
  { apply Hunknown. unfold w. simpl.
    rewrite (setters_keep_unknown _ _ _ Hall). apply lookup_empty. }
  split; [exact Hw |]. now rewrite Hw.
Qed.

Lemma WriteToZK_unknown_user_witness :
  WriteToZK "carol"
    {| manager := SetPUID "bob" "btc" 42 (exampleManager false);
       zookeeper := emptyZookeeper |} =
    (Some (ErrUserNotExists "carol"),
     {| manager := SetPUID "bob" "btc" 42 (exampleManager false);
        zookeeper := emptyZookeeper |}).
Proof.
  refine (proj1 (proj2 (WriteToZK_unknown_user "carol") (exampleConfig false)
                   [CallSetPUID "bob" "btc" 42] emptyZookeeper _)).
  repeat constructor. discriminate.
Defined.

(** ** FetchUserIDList, case by case *)

Section FetchFacts.

Variable lowerUnicode : string -> string.

Lemma FetchUserIDList_unfold chain update env w :
  FetchUserIDList lowerUnicode chain update env w =
    let w0 := withManager w (withCursor (manager w) chain) in
    match httpGet env (requestOf (manager w) chain) with
    | HTTPRequestFailed => (Some ErrHTTPRequest, w0)
    | HTTPReadFailed => (Some ErrHTTPFetchBody, w0)
    | HTTPBody body =>
      match UnmarshalUserIDMapResponse body with
      | None =>
        match UnmarshalUserIDMapEmptyResponse body with
        | None => (Some ErrParseResult, w0)
        | Some _ => (None, w0)
        end
      | Some response =>
        if ErrNo response =? 0 then
          (None, fold_left (applyUserID lowerUnicode chain update)
                           (rangeData env (Data response)) w0)
        else (Some ErrAPIReturned, w0)
      end
    end.
Proof.
  unfold FetchUserIDList, requestOf, withCursor.
  destruct (lastPUID (manager w) !! chain); cbv zeta;
    destruct (httpGet env _) as [| | body]; try reflexivity;
    destruct (UnmarshalUserIDMapResponse body) as [response |]; try reflexivity;
    now destruct (ErrNo response =? 0).
Qed.

(** The state after the call is the loop run over [fetchedEntries]. *)
Lemma FetchUserIDList_world chain update env w :
  snd (FetchUserIDList lowerUnicode chain update env w) =
    fold_left (applyUserID lowerUnicode chain update)
              (fetchedEntries env (manager w) chain)
              (withManager w (withCursor (manager w) chain)).
Proof.
  rewrite FetchUserIDList_unfold. unfold fetchedEntries. cbv zeta.
  destruct (httpGet env _) as [| | body]; try reflexivity.
  destruct (UnmarshalUserIDMapResponse body) as [response |].
  - now destruct (ErrNo response =? 0).
  - now destruct (UnmarshalUserIDMapEmptyResponse body).
Qed.

Lemma withCursor_userChainMap m chain :
  userChainMap (withCursor m chain) = userChainMap m.
Proof. unfold withCursor. now destruct (lastPUID m !! chain). Qed.

Lemma withCursor_lastPUIDOf m chain :
  lastPUIDOf (withCursor m chain) chain = lastPUIDOf m chain.
Proof.
  unfold withCursor, lastPUIDOf. destruct (lastPUID m !! chain) eqn:E.
  - now rewrite E.
  - simpl. now rewrite lookup_insert_eq.
Qed.

Lemma withCursor_puidOf m chain u c :
  puidOf (withCursor m chain) u c = puidOf m u c.
Proof. unfold puidOf. now rewrite withCursor_userChainMap. Qed.

(** [WriteToZK] reads the manager and writes to ZooKeeper only. *)
Lemma WriteToZK_manager userName w :
  manager (snd (WriteToZK userName w)) = manager w.
Proof.
  unfold WriteToZK. destruct (userChainMap (manager w) !! userName); [| reflexivity].
  destruct (zkExists _ _) as [[e | [exists_ version]] zk1]; [reflexivity |].
  now destruct (if exists_ then _ else _).
Qed.

(** The manager after one turn of the loop. *)
Lemma applyUserID_manager chain update w puname puid :
  manager (applyUserID lowerUnicode chain update w (puname, puid)) =
    let m1 := SetPUID (RegularUserName lowerUnicode (manager w) puname) chain puid (manager w) in
    if puid >? lastPUIDOf m1 chain then withLastPUID m1 (<[chain := puid]> (lastPUID m1))
    else m1.
Proof.
  unfold applyUserID. cbv zeta.
  destruct update; [rewrite WriteToZK_manager |]; reflexivity.
Qed.

Lemma applyUserID_lastPUIDOf chain update w puname puid :
  lastPUIDOf (manager (applyUserID lowerUnicode chain update w (puname, puid))) chain =
    Z.max (lastPUIDOf (manager w) chain) puid.
Proof.
  rewrite applyUserID_manager. cbv zeta.
  change (lastPUIDOf (SetPUID _ chain puid (manager w)) chain)
    with (lastPUIDOf (manager w) chain).
  destruct (puid >? lastPUIDOf (manager w) chain) eqn:E.
  - unfold lastPUIDOf at 1. simpl. rewrite lookup_insert_eq. simpl. lia.
  - change (lastPUIDOf (SetPUID _ chain puid (manager w)) chain)
      with (lastPUIDOf (manager w) chain). lia.
Qed.

Lemma applyUserID_puidOf chain update w puname puid u c :
  puidOf (manager (applyUserID lowerUnicode chain update w (puname, puid))) u c =
    if decide (u = RegularUserName lowerUnicode (manager w) puname /\ c = chain)
    then Some puid else puidOf (manager w) u c.
Proof.
  rewrite applyUserID_manager. cbv zeta.
  rewrite <- puidOf_SetPUID.
  now destruct (puid >? _).
Qed.

(** ** The ids and the cursor over a pass *)

Lemma applyUserID_pass_inv chain update c0 m0 w puname puid :
  (forall u old, puidOf m0 u chain = Some old -> old <= c0) ->
  c0 <= puid ->
  pass_inv chain c0 m0 (manager w) ->
  pass_inv chain c0 m0 (manager (applyUserID lowerUnicode chain update w (puname, puid))).
Proof.
  intros Hstart Hid (Hc & Hbelow & Hmono). repeat split.
  - rewrite applyUserID_lastPUIDOf. lia.
  - intros u id. rewrite applyUserID_puidOf, applyUserID_lastPUIDOf.
    destruct (decide _) as [_ | _]; intros H.
    + inversion H; subst. lia.
    + apply Hbelow in H. lia.
  - intros u old Hold. rewrite applyUserID_puidOf.
    destruct (decide _) as [_ | _].
    + exists puid. split; [reflexivity |]. apply Hstart in Hold. lia.
    + now apply Hmono.
Qed.

Lemma fold_applyUserID_pass_inv chain update c0 m0 l : forall w,
  (forall u old, puidOf m0 u chain = Some old -> old <= c0) ->
  (forall name id, (name, id) ∈ l -> c0 <= id) ->
  pass_inv chain c0 m0 (manager w) ->
  pass_inv chain c0 m0 (manager (fold_left (applyUserID lowerUnicode chain update) l w)).
Proof.
  induction l as [| [puname puid] l IH]; intros w Hstart Hids Hinv; [exact Hinv |].
  cbn [fold_left]. apply IH; auto.
  - intros name id Hin. apply (Hids name id). now apply list_elem_of_further.
  - apply applyUserID_pass_inv; auto. apply (Hids puname puid), list_elem_of_here.
Qed.

Lemma fold_applyUserID_cursor chain update l : forall w,
  lastPUIDOf (manager w) chain <=
  lastPUIDOf (manager (fold_left (applyUserID lowerUnicode chain update) l w)) chain.
Proof.
  induction l as [| [puname puid] l IH]; intros w; [reflexivity |].
  cbn [fold_left]. etransitivity; [| apply IH].
  rewrite applyUserID_lastPUIDOf. lia.
Qed.

(** C4 (as the code has it). [SetPUID] compares nothing, the last write
    stays; what never goes down over a pass is the cursor [lastPUID[chain]].
    The id of a user under the chain does not go down over a pass either
    when the stored ids are at or below the cursor and the registry
    answers, as [last_id] asks, with ids at or above the cursor only; the
    stored ids are then at or below the cursor again for the next pass. *)
Theorem puid_nondecreasing_when_ids_above_cursor chain update env w :
  let w' := snd (FetchUserIDList lowerUnicode chain update env w) in
  (forall u puid m, puidOf (SetPUID u chain puid m) u chain = Some puid) /\
  lastPUIDOf (manager w) chain <= lastPUIDOf (manager w') chain /\
  (below_cursor (manager w) chain ->
   (forall name id, (name, id) ∈ fetchedEntries env (manager w) chain ->
      lastPUIDOf (manager w) chain <= id) ->
   below_cursor (manager w') chain /\
   forall u old, puidOf (manager w) u chain = Some old ->
     exists new, puidOf (manager w') u chain = Some new /\ old <= new).
Proof.
  intros w'. unfold w'. rewrite FetchUserIDList_world. split; [| split].
  - intros u puid m. rewrite puidOf_SetPUID. now rewrite decide_True.
  - etransitivity; [| apply fold_applyUserID_cursor].
    simpl. now rewrite withCursor_lastPUIDOf.
  - intros Hbelow Hids.
    apply (fold_applyUserID_pass_inv chain update
             (lastPUIDOf (manager w) chain) (manager w)); auto.
    simpl. repeat split.
    + now rewrite withCursor_lastPUIDOf.
    + intros u id. rewrite withCursor_puidOf, withCursor_lastPUIDOf. apply Hbelow.
    + intros u old Hold. exists old. rewrite withCursor_puidOf. auto with zarith.
Qed.

End FetchFacts.

Lemma worldAlice5_below_cursor : below_cursor (manager worldAlice5) "btc".
Proof.
  intros u id.
  change (puidOf (manager worldAlice5) u "btc")
    with (puidOf (SetPUID "alice" "btc" 5 (exampleManager false)) u "btc").
  rewrite puidOf_SetPUID. destruct (decide _) as [_ | _]; intros H.
  - inversion H. reflexivity.
  - unfold puidOf in H. simpl in H. now rewrite lookup_empty in H.
Defined.

Lemma puid_nondecreasing_when_ids_above_cursor_witness :
  exists new,
    puidOf (manager (snd (FetchUserIDList (fun s => s) "btc" true
                            (answering (userListBody 0 "" [("alice", 9)])) worldAlice5)))
           "alice" "btc" = Some new /\ 5 <= new.
Proof.
  refine (proj2 (proj2 (proj2 (puid_nondecreasing_when_ids_above_cursor (fun s => s) "btc"
                                 true (answering (userListBody 0 "" [("alice", 9)]))
                                 worldAlice5))
                       worldAlice5_below_cursor _)
                "alice" 5 eq_refl).
  intros name id Hin. vm_compute in Hin.
  apply list_elem_of_singleton in Hin. inversion Hin. vm_compute. discriminate.
Defined.

(** C4, the claim as written fails: Alice holds 5 under "btc"; the registry
    answers with 3 for her, and 3 is stored. Within one answer too: two
    names of the same user with 7 and 6, applied in this order, leave 7 and
    then 6. *)
Lemma smaller_puid_replaces_larger :
  puidOf (manager worldAlice5) "alice" "btc" = Some 5 /\
  puidOf (manager (snd (FetchUserIDList (fun s => s) "btc" true
                          (answering (userListBody 0 "" [("alice", 3)])) worldAlice5)))
         "alice" "btc" = Some 3 /\
  puidOf (manager (applyUserID (fun s => s) "btc" true worldAlice5 ("alice_x", 7)))
         "alice" "btc" = Some 7 /\
  puidOf (manager (applyUserID (fun s => s) "btc" true
                     (applyUserID (fun s => s) "btc" true worldAlice5 ("alice_x", 7))
                     ("alice_y", 6)))
         "alice" "btc" = Some 6.
Proof. repeat split; vm_compute; reflexivity. Qed.

(** ** The two shapes of the answer *)

Lemma decodeInt_in_range lo hi old z :
  lo <= z <= hi -> decodeInt lo hi old (JInt z) = Some z.
Proof.
  intros [Hlo Hhi]. unfold decodeInt.
  now rewrite (proj2 (Z.leb_le lo z) Hlo), (proj2 (Z.leb_le z hi) Hhi).
Qed.

(** An answer with an array under [data] does not decode as the keyed
    shape, whatever its [err_no]. *)
Lemma noUserBody_not_keyed errNo errMsg :
  UnmarshalUserIDMapResponse (noUserBody errNo errMsg) = None.
Proof.
  unfold noUserBody, UnmarshalUserIDMapResponse. cbn [fold_left].
  unfold decodeUserIDMapMember at 3. cbn [fst snd].
  change (String.eqb (foldKey "err_no") "err_no") with true. cbv iota.
  destruct (decodeInt int64_min int64_max _ (JInt errNo)); reflexivity.
Qed.

(** It decodes as the empty shape, and its [err_no] is in the result. *)
Lemma noUserBody_empty_shape errNo errMsg :
  int64_min <= errNo <= int64_max ->
  UnmarshalUserIDMapEmptyResponse (noUserBody errNo errMsg) =
    Some {| EmptyErrNo := errNo; EmptyErrMsg := errMsg; EmptyData := [] |}.
Proof.
  intros Hrange. unfold noUserBody, UnmarshalUserIDMapEmptyResponse. cbn [fold_left].
  unfold decodeUserIDMapEmptyMember at 3. cbn [fst snd].
  change (String.eqb (foldKey "err_no") "err_no") with true. cbv iota.
  rewrite (decodeInt_in_range _ _ _ _ Hrange). reflexivity.
Qed.

(** C7 (what the code does). [err_no] is looked at in the keyed shape
    only: an answer that decodes as the keyed shape with a non-zero
    [err_no] is an error and the loop does not run; an answer with an array
    under [data] is taken as "no new user" and the call returns nil,
    whatever its [err_no]. *)
Theorem err_no_checked_for_keyed_shape_only lowerUnicode chain update env w :
  let w0 := withManager w (withCursor (manager w) chain) in
  (forall body response,
     httpGet env (requestOf (manager w) chain) = HTTPBody body ->
     UnmarshalUserIDMapResponse body = Some response ->
     ErrNo response <> 0 ->
     FetchUserIDList lowerUnicode chain update env w = (Some ErrAPIReturned, w0)) /\
  (forall errNo errMsg,
     int64_min <= errNo <= int64_max ->
     httpGet env (requestOf (manager w) chain) = HTTPBody (noUserBody errNo errMsg) ->
     FetchUserIDList lowerUnicode chain update env w = (None, w0)).
Proof.
  intros w0. split.
  - intros body response Hget Hdec Herr.
    rewrite FetchUserIDList_unfold, Hget, Hdec. cbv zeta.
    now rewrite (proj2 (Z.eqb_neq _ _) Herr).
  - intros errNo errMsg Hrange Hget.
    rewrite FetchUserIDList_unfold, Hget, noUserBody_not_keyed. cbv zeta.
    now rewrite (noUserBody_empty_shape _ _ Hrange).
Qed.

(** [{"err_no":1,"err_msg":"denied","data":[]}] comes back as nil. *)
Lemma err_no_checked_for_keyed_shape_only_witness :
  FetchUserIDList (fun s => s) "btc" true (answering (noUserBody 1 "denied")) exampleWorld =
    (None, withManager exampleWorld (withCursor (manager exampleWorld) "btc")).
Proof.
  refine (proj2 (err_no_checked_for_keyed_shape_only (fun s => s) "btc" true
                   (answering (noUserBody 1 "denied")) exampleWorld)
                1 "denied" _ eq_refl).
  vm_compute. split; discriminate.
Defined.

(** C8. The body is decoded as the keyed shape first; the empty shape is
    tried only when that fails; an answer of the empty shape comes back as
    nil with the users and ZooKeeper as they were; and the parse error is
    returned exactly when the body decodes as neither. *)
Theorem keyed_shape_first_then_empty_shape lowerUnicode chain update env w body :
  httpGet env (requestOf (manager w) chain) = HTTPBody body ->
  let w0 := withManager w (withCursor (manager w) chain) in
  let result := FetchUserIDList lowerUnicode chain update env w in
  match UnmarshalUserIDMapResponse body with
  | Some response =>
    result =
      if ErrNo response =? 0 then
        (None, fold_left (applyUserID lowerUnicode chain update)
                         (rangeData env (Data response)) w0)
      else (Some ErrAPIReturned, w0)
  | None =>
    match UnmarshalUserIDMapEmptyResponse body with
    | Some _ => result = (None, w0)
    | None => result = (Some ErrParseResult, w0)
    end
  end /\
  (fst result = Some ErrParseResult <->
   UnmarshalUserIDMapResponse body = None /\ UnmarshalUserIDMapEmptyResponse body = None) /\
  userChainMap (manager w0) = userChainMap (manager w) /\
  zookeeper w0 = zookeeper w /\
  (body = noUserBody 0 "" -> result = (None, w0)).
Proof.
  intros Hget w0 result. unfold result. rewrite FetchUserIDList_unfold, Hget. cbv zeta.
  fold w0. repeat split.
  - destruct (UnmarshalUserIDMapResponse body) as [response |]; [reflexivity |].
    now destruct (UnmarshalUserIDMapEmptyResponse body).
  - destruct (UnmarshalUserIDMapResponse body) as [response |];
      [destruct (ErrNo response =? 0); discriminate | reflexivity].
  - destruct (UnmarshalUserIDMapResponse body) as [response |];
      [destruct (ErrNo response =? 0); discriminate |].
    now destruct (UnmarshalUserIDMapEmptyResponse body).
  - intros [-> ->]. reflexivity.
  - apply withCursor_userChainMap.
  - intros ->. rewrite noUserBody_not_keyed.
    rewrite noUserBody_empty_shape by (vm_compute; split; discriminate). reflexivity.
Qed.

(** [{"err_no":0,"err_msg":"","data":[]}] on the first call for "btc". *)
Lemma keyed_shape_first_then_empty_shape_witness :
  FetchUserIDList (fun s => s) "btc" true (answering (noUserBody 0 "")) exampleWorld =
    (None, withManager exampleWorld (withCursor (manager exampleWorld) "btc")) /\
  userChainMap (manager (withManager exampleWorld (withCursor (manager exampleWorld) "btc"))) =
    userChainMap (manager exampleWorld).
Proof.
  pose proof (keyed_shape_first_then_empty_shape (fun s => s) "btc" true
                (answering (noUserBody 0 "")) exampleWorld (noUserBody 0 "") eq_refl)
    as (_ & _ & Hsame & _ & Hnil).
  split; [exact (Hnil eq_refl) | exact Hsame].
Defined.

End UserChainManagerFacts.

(* ===================================================================== *)
(** * Properties of runs of the chain switcher *)
(* ===================================================================== *)

Module ChainSwitcherRunFacts.

Import ChainSwitcher ChainSwitcherRun ChainSwitcherFacts.

(** ** One pass *)

Lemma commands_app events events' :
  commands (events ++ events') = commands events ++ commands events'.
Proof. unfold commands. apply omap_app. Qed.

Lemma auditRows_app events events' :
  auditRows (events ++ events') = auditRows events ++ auditRows events'.
Proof. unfold auditRows. apply omap_app. Qed.

(** What [updateCurrentChain] can leave: nothing and the chain it found, or
    one audit row from the chain it found to another, non-empty one. *)
Lemma updateCurrentChain_returned cfg env st st1 events :
  updateCurrentChain cfg env st = Returned st1 events ->
  commandID st1 = commandID st /\
  ((events = [] /\ currentChainName st1 = currentChainName st) \/
   (exists body,
      events = [AuditRow (Algorithm cfg) (currentChainName st) (currentChainName st1) body] /\
      currentChainName st <> currentChainName st1 /\
      currentChainName st1 <> "" /\
      exists record, api env = GotBody body (Some record) /\
        currentChainName st1 = bestChainOf cfg (rangeCoins env (Coins record)))).
Proof.
  destruct (api env) as [| | body [record |]] eqn:Hapi.
  1,2,4: rewrite updateCurrentChain_undecoded by (intros b r; rewrite Hapi; discriminate);
    intros H; inversion H; subst; auto.
  rewrite (updateCurrentChain_decoded _ _ _ _ _ Hapi). cbv zeta. unfold nextChainName.
  destruct (String.eqb (bestChainOf cfg _) "") eqn:Ebest.
  - rewrite String.eqb_refl. intros H; inversion H; subst; auto.
  - destruct (String.eqb (currentChainName st) _) eqn:Esame.
    + apply String.eqb_eq in Esame. intros H; inversion H; subst; simpl; auto.
    + destruct (insertOk env); [| discriminate].
      intros H; inversion H; subst; simpl. split; [reflexivity |]. right.
      exists body. repeat split.
      * now apply String.eqb_neq.
      * now apply String.eqb_neq.
      * exists record. auto.
Qed.

Lemma updateCurrentChain_exited cfg env st events :
  updateCurrentChain cfg env st = Exited events ->
  events = [] /\ insertOk env = false /\
  exists body record,
    api env = GotBody body (Some record) /\
    bestChainOf cfg (rangeCoins env (Coins record)) <> "" /\
    bestChainOf cfg (rangeCoins env (Coins record)) <> currentChainName st.
Proof.
  destruct (api env) as [| | body [record |]] eqn:Hapi.
  1,2,4: rewrite updateCurrentChain_undecoded by (intros b r; rewrite Hapi; discriminate);
    discriminate.
  rewrite (updateCurrentChain_decoded _ _ _ _ _ Hapi). cbv zeta. unfold nextChainName.
  destruct (String.eqb (bestChainOf cfg _) "") eqn:Ebest.
  - rewrite String.eqb_refl. discriminate.
  - destruct (String.eqb (currentChainName st) _) eqn:Esame; [discriminate |].
    destruct (insertOk env); [discriminate |].
    intros H; inversion H. repeat split. exists body, record.
    apply String.eqb_neq in Ebest, Esame. auto.
Qed.

(** A pass as [updateCurrentChain] followed by the command. *)
Lemma updateChainPass_returned cfg env st st' events :
  updateChainPass cfg env st = Returned st' events ->
  exists st1 events1,
    updateCurrentChain cfg env st = Returned st1 events1 /\
    currentChainName st' = currentChainName st1 /\
    ((currentChainName st1 = "" /\ st' = st1 /\ events = events1) \/
     (currentChainName st1 <> "" /\
      commandID st' = uint64_succ (commandID st) /\
      events = events1 ++
        [KafkaWrite (mkCommand (uint64_succ (commandID st)) (now env)
                               (currentChainName st1))])).
Proof.
  unfold updateChainPass.
  destruct (updateCurrentChain cfg env st) as [st1 events1 |] eqn:Hupdate; [| discriminate].
  destruct (updateCurrentChain_returned _ _ _ _ _ Hupdate) as [Hid _].
  destruct (String.eqb (currentChainName st1) "") eqn:E; simpl;
    intros H; injection H as <- <-;
    exists st1, events1; (split; [reflexivity |]); (split; [reflexivity |]).
  - left. apply String.eqb_eq in E. auto.
  - right. apply String.eqb_neq in E. rewrite Hid. auto.
Qed.

Lemma updateChainPass_exited cfg env st events :
  updateChainPass cfg env st = Exited events ->
  events = [] /\ insertOk env = false /\
  exists body record,
    api env = GotBody body (Some record) /\
    bestChainOf cfg (rangeCoins env (Coins record)) <> "" /\
    bestChainOf cfg (rangeCoins env (Coins record)) <> currentChainName st.
Proof.
  unfold updateChainPass.
  destruct (updateCurrentChain cfg env st) as [st1 events1 |] eqn:Hupdate.
  - destruct (negb _); discriminate.
  - intros H; inversion H; subst. now apply updateCurrentChain_exited in Hupdate.
Qed.

(** The command of a pass and the id it takes. *)
Lemma updateChainPass_command cfg env st st' events :
  updateChainPass cfg env st = Returned st' events ->
  (commands events = [] /\ commandID st' = commandID st /\ currentChainName st' = "") \/
  (commands events =
     [mkCommand (uint64_succ (commandID st)) (now env) (currentChainName st')] /\
   commandID st' = uint64_succ (commandID st) /\ currentChainName st' <> "").
Proof.
  intros Hpass.
  destruct (updateChainPass_returned _ _ _ _ _ Hpass)
    as (st1 & events1 & Hupdate & Hname & Hcases).
  destruct (updateCurrentChain_returned _ _ _ _ _ Hupdate) as [Hid Hrows].
  assert (Hnone : commands events1 = []).
  { destruct Hrows as [[-> _] | (body & -> & _)]; reflexivity. }
  destruct Hcases as [(Hempty & -> & ->) | (Hset & Hid' & ->)].
  - left. auto.
  - right. rewrite commands_app, Hnone, Hname. auto.
Qed.

(** The audit row of a pass. *)
Lemma updateChainPass_auditRow cfg env st st' events :
  updateChainPass cfg env st = Returned st' events ->
  (auditRows events = [] /\ currentChainName st' = currentChainName st) \/
  (exists body,
     auditRows events = [(Algorithm cfg, currentChainName st, currentChainName st', body)] /\
     currentChainName st <> currentChainName st' /\ currentChainName st' <> "").
Proof.
  intros Hpass.
  destruct (updateChainPass_returned _ _ _ _ _ Hpass)
    as (st1 & events1 & Hupdate & Hname & Hcases).
  destruct (updateCurrentChain_returned _ _ _ _ _ Hupdate) as [_ Hrows].
  assert (Hev : auditRows events = auditRows events1).
  { destruct Hcases as [(_ & _ & ->) | (_ & _ & ->)]; [reflexivity |].
    rewrite auditRows_app. simpl. apply app_nil_r. }
  rewrite Hev, Hname.
  destruct Hrows as [[-> Hsame] | (body & -> & Hne & Hset & _)]; [left; auto |].
  right. exists body. auto.
Qed.

(** ** Runs *)

Lemma eventsOf_cons cfg env envs st :
  eventsOf (updateChain cfg (env :: envs) st) =
    match updateChainPass cfg env st with
    | Exited events => events
    | Returned st1 events => events ++ eventsOf (updateChain cfg envs st1)
    end.
Proof.
  simpl. destruct (updateChainPass cfg env st) as [st1 events |]; [| reflexivity].
  now destruct (updateChain cfg envs st1).
Qed.

(** A run over [envs1 ++ envs2] is the run over [envs1] followed, from the
    state it ends in, by the run over [envs2]. *)
Lemma updateChain_app cfg envs1 envs2 st :
  updateChain cfg (envs1 ++ envs2) st =
    match updateChain cfg envs1 st with
    | Exited events => Exited events
    | Returned st1 events1 =>
      match updateChain cfg envs2 st1 with
      | Exited events2 => Exited (events1 ++ events2)
      | Returned st2 events2 => Returned st2 (events1 ++ events2)
      end
    end.
Proof.
  revert st. induction envs1 as [| env envs1 IH]; intros st.
  - simpl. now destruct (updateChain cfg envs2 st).
  - simpl. destruct (updateChainPass cfg env st) as [st0 events0 |]; [| reflexivity].
    rewrite IH. destruct (updateChain cfg envs1 st0) as [st1 events1 |]; [| reflexivity].
    destruct (updateChain cfg envs2 st1); now rewrite app_assoc.
Qed.

Lemma idsAfter_app n j k :
  idsAfter n (j + k) = idsAfter n j ++ idsAfter (Nat.iter j uint64_succ n) k.
Proof.
  revert n. induction j as [| j IH]; intros n; [reflexivity |].
  cbn [Nat.add idsAfter app]. rewrite IH, Nat.iter_succ_r. reflexivity.
Qed.

(** X1. The commands of a run carry consecutive ids: the first takes the
    id after [commandID], each next one the id after the one before, and
    the run ends with [commandID] at the id of its last command. *)
Theorem command_ids_consecutive cfg envs : forall st,
  let outcome := updateChain cfg envs st in
  map ID (commands (eventsOf outcome)) =
    idsAfter (commandID st) (length (commands (eventsOf outcome))) /\
  (forall st' events, outcome = Returned st' events ->
     commandID st' = Nat.iter (length (commands events)) uint64_succ (commandID st)).
Proof.
  induction envs as [| env envs IH]; intros st outcome; unfold outcome.
  - split; [reflexivity |]. intros st' events H. now inversion H.
  - rewrite eventsOf_cons. simpl updateChain.
    destruct (updateChainPass cfg env st) as [st1 events1 |] eqn:Hpass.
    + destruct (IH st1) as [IHids IHlast].
      assert (Hstep : map ID (commands events1) =
                        idsAfter (commandID st) (length (commands events1)) /\
                      commandID st1 =
                        Nat.iter (length (commands events1)) uint64_succ (commandID st)).
      { destruct (updateChainPass_command _ _ _ _ _ Hpass)
          as [(-> & -> & _) | (-> & -> & _)]; auto. }
      destruct Hstep as [Hids Hid]. split.
      * rewrite commands_app, map_app, length_app, IHids, Hids, Hid.
        now rewrite idsAfter_app.
      * intros st' events H.
        destruct (updateChain cfg envs st1) as [st2 events2 |] eqn:Hrest; [| discriminate].
        injection H as <- <-. rewrite commands_app, length_app.
        rewrite (IHlast st2 events2 eq_refl), Hid.
        now rewrite Nat.add_comm, Nat.iter_add.
    + apply updateChainPass_exited in Hpass as [-> _].
      split; [reflexivity | discriminate].
Qed.

(** X2. Once the current chain is set it is never empty again, and every
    pass of a run that comes back writes its command: as many commands as
    passes. *)
Theorem current_chain_stays_set cfg envs : forall st st' events,
  currentChainName st <> "" ->
  updateChain cfg envs st = Returned st' events ->
  currentChainName st' <> "" /\ length (commands events) = length envs.
Proof.
  induction envs as [| env envs IH]; intros st st' events Hset Hrun.
  - simpl in Hrun. injection Hrun as <- <-. auto.
  - simpl in Hrun.
    destruct (updateChainPass cfg env st) as [st1 events1 |] eqn:Hpass; [| discriminate].
    destruct (updateChain cfg envs st1) as [st2 events2 |] eqn:Hrest; [| discriminate].
    injection Hrun as <- <-.
    assert (Hset1 : currentChainName st1 <> "").
    { destruct (updateChainPass_auditRow _ _ _ _ _ Hpass)
        as [[_ ->] | (body & _ & _ & Hne)]; auto. }
    destruct (IH st1 st2 events2 Hset1 Hrest) as [Hset2 Hlen].
    split; [exact Hset2 |].
    rewrite commands_app, length_app, Hlen.
    destruct (updateChainPass_command _ _ _ _ _ Hpass)
      as [(_ & _ & Hempty) | (-> & _ & _)]; [congruence | reflexivity].
Qed.

Lemma current_chain_stays_set_witness :
  length (commands (eventsOf (updateChain cfgB [envAB true; envDown; envB0]
                                {| currentChainName := "chainA"; commandID := 0 |}))) = 3%nat.
Proof.
  destruct (updateChain cfgB [envAB true; envDown; envB0]
              {| currentChainName := "chainA"; commandID := 0 |})
    as [st' events |] eqn:Hrun; [| vm_compute in Hrun; discriminate].
  refine (proj2 (current_chain_stays_set cfgB [envAB true; envDown; envB0]
                   {| currentChainName := "chainA"; commandID := 0 |} st' events _ Hrun)).
  discriminate.
Defined.

Lemma linked_app start rows middle rows' stop :
  linked start rows middle -> linked middle rows' stop -> linked start (rows ++ rows') stop.
Proof.
  revert start. induction rows as [| [[[alg prev] curr] body] rows IH]; intros start.
  - simpl. now intros ->.
  - simpl. intros (-> & Hne & Hrest) Hrows'. repeat split; auto.
Qed.

(** X3. The audit rows of a run are an unbroken trail: the first row
    starts at the chain the run started with, each row starts where the
    row before ended and moves to another chain, and the last row ends at
    the chain the run ends with; all carry the configured algorithm. *)
Theorem audit_rows_linked cfg envs : forall st,
  match updateChain cfg envs st with
  | Returned st' events =>
    linked (currentChainName st) (auditRows events) (currentChainName st')
  | Exited events =>
    exists stop, linked (currentChainName st) (auditRows events) stop
  end /\
  Forall (fun row => fst (fst (fst row)) = Algorithm cfg)
         (auditRows (eventsOf (updateChain cfg envs st))).
Proof.
  induction envs as [| env envs IH]; intros st.
  - simpl. split; [reflexivity | constructor].
  - rewrite eventsOf_cons. simpl updateChain.
    destruct (updateChainPass cfg env st) as [st1 events1 |] eqn:Hpass.
    + assert (Hstep : linked (currentChainName st) (auditRows events1) (currentChainName st1)
                      /\ Forall (fun row => fst (fst (fst row)) = Algorithm cfg)
                                (auditRows events1)).
      { destruct (updateChainPass_auditRow _ _ _ _ _ Hpass)
          as [[-> ->] | (body & -> & Hne & _)].
        - split; [reflexivity | constructor].
        - split; [simpl; auto | repeat constructor]. }
      destruct Hstep as [Hlink Halg]. destruct (IH st1) as [IHlink IHalg].
      split.
      * destruct (updateChain cfg envs st1) as [st2 events2 |];
          rewrite auditRows_app.
        -- now apply (linked_app _ _ (currentChainName st1)).
        -- destruct IHlink as [stop Hstop]. exists stop.
           now apply (linked_app _ _ (currentChainName st1)).
      * rewrite auditRows_app. apply Forall_app. auto.
    + apply updateChainPass_exited in Hpass as (-> & _).
      split; [exists (currentChainName st); reflexivity | constructor].
Qed.

Lemma updateChainPass_undecoded cfg env st :
  undecoded env ->
  updateChainPass cfg env st =
    if String.eqb (currentChainName st) "" then Returned st []
    else Returned {| currentChainName := currentChainName st;
                     commandID := uint64_succ (commandID st) |}
                  [KafkaWrite (mkCommand (uint64_succ (commandID st)) (now env)
                                         (currentChainName st))].
Proof.
  intros Hdown. unfold updateChainPass.
  rewrite updateCurrentChain_undecoded.
  - now destruct (String.eqb (currentChainName st) "").
  - intros body record Hapi. unfold undecoded in Hdown. now rewrite Hapi in Hdown.
Qed.

(** X4. While the dispatch record does not arrive (the request fails, the
    body cannot be read or does not decode) the loop goes on: the current
    chain stays, no audit row is written, and each pass sends the current
    chain again, under the next id, unless the chain is still empty. *)
Theorem outage_resends_current_chain cfg envs : forall st,
  Forall undecoded envs ->
  exists events,
    updateChain cfg envs st =
      Returned {| currentChainName := currentChainName st;
                  commandID := if String.eqb (currentChainName st) "" then commandID st
                               else Nat.iter (length envs) uint64_succ (commandID st) |}
               events /\
    auditRows events = [] /\
    map ChainName (commands events) =
      (if String.eqb (currentChainName st) "" then []
       else repeat (currentChainName st) (length envs)).
Proof.
  induction envs as [| env envs IH]; intros st Hall.
  - exists []. simpl. destruct st as [name id]. simpl.
    now destruct (String.eqb name "").
  - inversion Hall as [| ? ? Hdown Hrest]; subst. simpl updateChain.
    rewrite (updateChainPass_undecoded _ _ _ Hdown).
    destruct (String.eqb (currentChainName st) "") eqn:E.
    + destruct (IH st Hrest) as (events & -> & Hrows & Hcmds).
      rewrite E in *. exists events. auto.
    + destruct (IH {| currentChainName := currentChainName st;
                      commandID := uint64_succ (commandID st) |} Hrest)
        as (events & Hrun & Hrows & Hcmds).
      cbn [currentChainName commandID] in Hrun, Hcmds. rewrite E in Hrun, Hcmds.
      rewrite Hrun. eexists. split; [| split].
      * cbn [length]. rewrite Nat.iter_succ_r. reflexivity.
      * rewrite auditRows_app, Hrows. reflexivity.
      * rewrite commands_app, map_app, Hcmds. reflexivity.
Qed.

Lemma outage_resends_current_chain_witness :
  exists events,
    updateChain cfgB [envDown; envDown] {| currentChainName := "chainB"; commandID := 4 |} =
      Returned {| currentChainName := "chainB"; commandID := 6 |} events /\
    auditRows events = [] /\
    map ChainName (commands events) = ["chainB"; "chainB"].
Proof.
  refine (outage_resends_current_chain cfgB [envDown; envDown]
            {| currentChainName := "chainB"; commandID := 4 |} _).
  repeat constructor.
Defined.

(** X5. The loop ends the process in one case only: a pass whose dispatch
    record decoded, selected a chain other than the current one, and whose
    insert into the audit table failed. With inserts that succeed the run
    always comes back. *)
Theorem exit_only_on_failed_insert cfg envs : forall st,
  (forall events, updateChain cfg envs st = Exited events ->
     Exists (fun env => insertOk env = false /\
                        exists body record, api env = GotBody body (Some record)) envs) /\
  (Forall (fun env => insertOk env = true) envs ->
   exists st' events, updateChain cfg envs st = Returned st' events).
Proof.
  induction envs as [| env envs IH]; intros st.
  - split; [discriminate | eauto].
  - simpl updateChain.
    destruct (updateChainPass cfg env st) as [st1 events1 |] eqn:Hpass.
    + destruct (IH st1) as [IHexit IHback]. split.
      * intros events Hrun.
        destruct (updateChain cfg envs st1) as [st2 events2 |]; [discriminate |].
        apply Exists_cons_tl. eapply IHexit. reflexivity.
      * intros Hall. inversion Hall as [| ? ? _ Hrest]; subst.
        destruct (IHback Hrest) as (st' & events & ->). eauto.
    + apply updateChainPass_exited in Hpass as (-> & Hfail & body & record & Hapi & _).
      split.
      * intros _ _. apply Exists_cons_hd. eauto.
      * intros Hall. inversion Hall as [| ? ? Hok _]; subst. congruence.
Qed.

Lemma exit_only_on_failed_insert_witness :
  exists st' events,
    updateChain cfgB [envAB true; envDown; envAB true]
      {| currentChainName := "chainA"; commandID := 0 |} = Returned st' events.
Proof.
  refine (proj2 (exit_only_on_failed_insert cfgB [envAB true; envDown; envAB true]
                   {| currentChainName := "chainA"; commandID := 0 |}) _).
  repeat constructor.
Defined.

(** The chain after a pass is the chain before it or a name the rename map
    gives. *)
Lemma updateChainPass_chain_origin cfg env st st' events :
  updateChainPass cfg env st = Returned st' events ->
  currentChainName st' = currentChainName st \/
  exists key, ChainNameMap cfg !! key = Some (currentChainName st').
Proof.
  intros Hpass.
  destruct (updateChainPass_returned _ _ _ _ _ Hpass)
    as (st1 & events1 & Hupdate & -> & _).
  destruct (updateCurrentChain_returned _ _ _ _ _ Hupdate)
    as [_ [[_ Hsame] | (body & _ & _ & Hset & record & _ & Hbest)]]; [now left |].
  right. rewrite Hbest in *. unfold bestChainOf in *.
  destruct (selectLoop_from_entry cfg (rangeCoins env (Coins record)))
    as [Hinit | (key & r & _ & Hmap & _)].
  - rewrite Hinit in Hset. now destruct Hset.
  - now exists key.
Qed.

(** X6. Every command of a run names the chain the run started with or a
    name the rename map gives to some chain: a chain key of the dispatch
    API is never sent as it is. *)
Theorem command_chain_from_rename_map cfg envs : forall st command,
  command ∈ commands (eventsOf (updateChain cfg envs st)) ->
  ChainName command = currentChainName st \/
  exists key, ChainNameMap cfg !! key = Some (ChainName command).
Proof.
  induction envs as [| env envs IH]; intros st command.
  - simpl. intros H. now apply elem_of_nil in H.
  - rewrite eventsOf_cons.
    destruct (updateChainPass cfg env st) as [st1 events1 |] eqn:Hpass.
    + pose proof (updateChainPass_chain_origin _ _ _ _ _ Hpass) as Horigin.
      rewrite commands_app, elem_of_app. intros [Hin | Hin].
      * destruct (updateChainPass_command _ _ _ _ _ Hpass)
          as [(Hnone & _) | (Hone & _)]; rewrite ?Hnone, ?Hone in Hin.
        -- now apply elem_of_nil in Hin.
        -- apply list_elem_of_singleton in Hin. subst command. exact Horigin.
      * destruct (IH st1 command Hin) as [Heq | Hmap]; [| now right].
        rewrite Heq. exact Horigin.
    + apply updateChainPass_exited in Hpass as (-> & _).
      intros H. now apply elem_of_nil in H.
Qed.

Lemma command_chain_from_rename_map_witness :
  ChainName (mkCommand 2 "2019-01-01 00:00:10" "chainB") = "chainA" \/
  exists key, ChainNameMap cfgB !! key =
                Some (ChainName (mkCommand 2 "2019-01-01 00:00:10" "chainB")).
Proof.
  refine (command_chain_from_rename_map cfgB [envAB true; envDown]
            {| currentChainName := "chainA"; commandID := 0 |}
            (mkCommand 2 "2019-01-01 00:00:10" "chainB") _).
  vm_compute. apply list_elem_of_further, list_elem_of_here.
Defined.

(** ** Ties *)

Lemma select_stays_below cfg h pre : forall (large : float64) best,
  SFltb large h = true ->
  (forall c r, (c, r) ∈ pre ->
     ChainNameMap cfg !! c = None \/ SFltb (DispatchHashrate r) h = true) ->
  SFltb (fst (fold_left (selectStep cfg) pre (large, best))) h = true.
Proof.
  induction pre as [| [c r] pre IH]; intros large best Hbelow Hall; [exact Hbelow |].
  cbn [fold_left].
  assert (Hrest : forall c' r', (c', r') ∈ pre ->
            ChainNameMap cfg !! c' = None \/ SFltb (DispatchHashrate r') h = true).
  { intros c' r' Hin. apply Hall. now apply list_elem_of_further. }
  destruct (Hall c r (list_elem_of_here _ _)) as [Hun | Hlt].
  - rewrite selectStep_unmapped by exact Hun. now apply IH.
  - unfold selectStep, float64_gt.
    destruct (SFltb large (DispatchHashrate r)); [| now apply IH].
    destruct (ChainNameMap cfg !! c); now apply IH.
Qed.

Lemma select_stays cfg (h : float64) name post :
  (forall c r, (c, r) ∈ post ->
     ChainNameMap cfg !! c = None \/ SFltb h (DispatchHashrate r) = false) ->
  fold_left (selectStep cfg) post (h, name) = (h, name).
Proof.
  induction post as [| [c r] post IH]; intros Hall; [reflexivity |].
  cbn [fold_left].
  assert (Hstep : selectStep cfg (h, name) (c, r) = (h, name)).
  { destruct (Hall c r (list_elem_of_here _ _)) as [Hun | Hnot].
    - now apply selectStep_unmapped.
    - now apply selectStep_not_above. }
  rewrite Hstep. apply IH. intros c' r' Hin. apply Hall. now apply list_elem_of_further.
Qed.

Lemma selectStep_takes cfg (large : float64) best chain record name :
  SFltb large (DispatchHashrate record) = true ->
  ChainNameMap cfg !! chain = Some name ->
  selectStep cfg (large, best) (chain, record) = (DispatchHashrate record, name).
Proof. intros Habove Hmap. unfold selectStep, float64_gt. now rewrite Habove, Hmap. Qed.

(** X7. Among chains of the rename map that share the largest hashrate,
    the one [range] yields first is selected: a chain above zero and
    strictly above every chain of the rename map yielded before it is
    selected as soon as no chain of the rename map yielded after it is
    strictly above it. *)
Theorem first_to_reach_largest_selected cfg pre chain record name post :
  ChainNameMap cfg !! chain = Some name ->
  SFltb float64_zero (DispatchHashrate record) = true ->
  (forall c r, (c, r) ∈ pre ->
     ChainNameMap cfg !! c = None \/
     SFltb (DispatchHashrate r) (DispatchHashrate record) = true) ->
  (forall c r, (c, r) ∈ post ->
     ChainNameMap cfg !! c = None \/
     SFltb (DispatchHashrate record) (DispatchHashrate r) = false) ->
  selectLoop cfg (pre ++ (chain, record) :: post) = (DispatchHashrate record, name).
Proof.
  intros Hmap Hpos Hpre Hpost. unfold selectLoop.
  rewrite fold_left_app. cbn [fold_left].
  pose proof (select_stays_below cfg (DispatchHashrate record) pre float64_zero ""
                Hpos Hpre) as Hbelow.
  revert Hbelow.
  destruct (fold_left (selectStep cfg) pre (float64_zero, "")) as [large best].
  cbn [fst]. intros Hbelow. rewrite (selectStep_takes _ _ _ _ _ _ Hbelow Hmap).
  now apply select_stays.
Qed.

(** A and B tied at 9: the one that comes first is kept. *)
Lemma first_to_reach_largest_selected_witness :
  bestChainOf cfgTie [("A", record_of 9); ("B", record_of 9)] = "chainA" /\
  bestChainOf cfgTie [("B", record_of 9); ("A", record_of 9)] = "chainB".
Proof.
  split.
  - refine (f_equal snd (first_to_reach_largest_selected cfgTie [] "A" (record_of 9)
                           "chainA" [("B", record_of 9)] eq_refl eq_refl _ _)).
    + intros c r H. now apply elem_of_nil in H.
    + intros c r H. apply list_elem_of_singleton in H. injection H as -> ->. now right.
  - refine (f_equal snd (first_to_reach_largest_selected cfgTie [] "B" (record_of 9)
                           "chainB" [("A", record_of 9)] eq_refl eq_refl _ _)).
    + intros c r H. now apply elem_of_nil in H.
    + intros c r H. apply list_elem_of_singleton in H. injection H as -> ->. now right.
Defined.

End ChainSwitcherRunFacts.

(* ===================================================================== *)
(** * Properties of ReadConfigFile *)
(* ===================================================================== *)

Module ConfigFileFacts.

Import ConfigFile.

Lemma lastByte_append_byte (s : string) (c : ascii) :
  lastByte (s +:+ String c "") = Some c.
Proof.
  induction s as [| b s IH]; [reflexivity |].
  simpl. rewrite IH. now destruct (s +:+ String c "")%string.
Qed.

Lemma endsWithSlash_append (s : string) : endsWithSlash (s +:+ "/") = true.
Proof. unfold endsWithSlash. now rewrite lastByte_append_byte. Qed.

Lemma length_le_0 (s : string) :
  (Z.of_nat (String.length s) <=? 0) = true <-> s = "".
Proof. destruct s; simpl; split; intros H; try reflexivity; try discriminate; lia. Qed.

Lemma endsWithSlash_nonempty (s : string) : endsWithSlash s = true -> s <> "".
Proof. intros H ->. discriminate. Qed.

Lemma setDefaults_wellFormed c :
  endsWithSlash (ZKSwitcherWatchDir c) = true ->
  (EnableUserAutoReg c = true -> endsWithSlash (ZKAutoRegWatchDir c) = true) ->
  wellFormed (setDefaults c).
Proof.
  intros Hdir Hauto. unfold wellFormed, setDefaults. simpl.
  repeat split; auto.
  - destruct (ZKSubPoolUpdateBaseDir c) as [| b rest] eqn:Ebase; [now left |].
    right. cbn [String.length]. replace (0 <? Z.of_nat (S (String.length rest))) with true
      by (symmetry; apply Z.ltb_lt; lia).
    destruct (endsWithSlash (String b rest)) eqn:E; simpl; [exact E |].
    apply endsWithSlash_append.
  - destruct (FetchUserListIntervalSeconds c <? 1) eqn:E; [lia | apply Z.ltb_ge in E; lia].
  - destruct (FetchUserCoinIntervalSeconds c <? 1) eqn:E; [lia | apply Z.ltb_ge in E; lia].
  - destruct (ZKSubPoolUpdateAckTimeout c <? 1) eqn:E; [lia | apply Z.ltb_ge in E; lia].
Qed.

(** A well-formed configuration is left as it is. *)
Lemma setDefaults_fixed c : wellFormed c -> setDefaults c = c.
Proof.
  intros (_ & _ & Hbase & Hlist & Hcoin & Hack). destruct c; simpl in *.
  unfold setDefaults. simpl.
  rewrite (proj2 (Z.ltb_ge _ _) Hlist), (proj2 (Z.ltb_ge _ _) Hcoin),
    (proj2 (Z.ltb_ge _ _) Hack).
  f_equal. destruct Hbase as [-> | ->]; [reflexivity |]. now rewrite andb_false_r.
Qed.

(** X8. [ReadConfigFile] fails on a decoded file in two cases only: the
    switcher watch directory is empty, or user auto-registration is on and
    its watch directory is empty. *)
Theorem checkConfig_fails_on_empty_dirs_only c :
  snd (checkConfig c) = None <->
  ZKSwitcherWatchDir c <> "" /\ (EnableUserAutoReg c = true -> ZKAutoRegWatchDir c <> "").
Proof.
  unfold checkConfig.
  destruct (Z.of_nat (String.length (ZKSwitcherWatchDir c)) <=? 0) eqn:Edir.
  - apply length_le_0 in Edir. simpl. split; [discriminate | intros [H _]; congruence].
  - assert (Hdir : ZKSwitcherWatchDir c <> "").
    { intros H. apply length_le_0 in H. congruence. }
    cbv zeta.
    set (c1 := if negb (endsWithSlash (ZKSwitcherWatchDir c))
               then withSwitcherWatchDir c (ZKSwitcherWatchDir c +:+ "/")%string
               else c).
    assert (Hen : EnableUserAutoReg c1 = EnableUserAutoReg c)
      by (unfold c1; now destruct (negb _)).
    assert (Hau : ZKAutoRegWatchDir c1 = ZKAutoRegWatchDir c)
      by (unfold c1; now destruct (negb _)).
    rewrite Hen, Hau.
    destruct (EnableUserAutoReg c) eqn:Een.
    + destruct (Z.of_nat (String.length (ZKAutoRegWatchDir c)) <=? 0) eqn:Eauto; simpl.
      * apply length_le_0 in Eauto.
        split; [discriminate | intros [_ H]; now destruct (H eq_refl)].
      * split; [| reflexivity]. intros _. split; [exact Hdir |].
        intros _ H. apply length_le_0 in H. congruence.
    + simpl. split; [| reflexivity]. intros _. split; [exact Hdir | discriminate].
Qed.

Lemma checkConfig_fails_on_empty_dirs_only_witness :
  snd (checkConfig bareConfig) = None.
Proof.
  apply (proj2 (checkConfig_fails_on_empty_dirs_only bareConfig)).
  split; [discriminate | intros _; discriminate].
Defined.

(** The switcher watch directory after the first step. *)
Lemma slash_terminated (c : ConfigData) :
  ZKSwitcherWatchDir c <> "" ->
  let c1 := if negb (endsWithSlash (ZKSwitcherWatchDir c))
            then withSwitcherWatchDir c (ZKSwitcherWatchDir c +:+ "/")%string
            else c in
  endsWithSlash (ZKSwitcherWatchDir c1) = true /\
  EnableUserAutoReg c1 = EnableUserAutoReg c /\
  ZKAutoRegWatchDir c1 = ZKAutoRegWatchDir c.
Proof.
  intros _ c1. unfold c1.
  destruct (endsWithSlash (ZKSwitcherWatchDir c)) eqn:E; simpl; auto.
  split; [apply endsWithSlash_append | auto].
Qed.

Lemma checkConfig_returns_wellFormed c c' :
  checkConfig c = (c', None) -> wellFormed c'.
Proof.
  unfold checkConfig.
  destruct (Z.of_nat (String.length (ZKSwitcherWatchDir c)) <=? 0) eqn:Edir; [discriminate |].
  assert (Hdir : ZKSwitcherWatchDir c <> "").
  { intros H. apply length_le_0 in H. congruence. }
  cbv zeta. destruct (slash_terminated c Hdir) as (Hslash & Hen & Hau).
  set (c1 := if negb (endsWithSlash (ZKSwitcherWatchDir c))
             then withSwitcherWatchDir c (ZKSwitcherWatchDir c +:+ "/")%string
             else c) in *.
  destruct (EnableUserAutoReg c1) eqn:Een.
  - destruct (Z.of_nat (String.length (ZKAutoRegWatchDir c1)) <=? 0); [discriminate |].
    intros H. injection H as <-.
    destruct (endsWithSlash (ZKAutoRegWatchDir c1)) eqn:Eauto; simpl.
    + now apply setDefaults_wellFormed.
    + apply setDefaults_wellFormed; simpl; [exact Hslash |].
      intros _. apply endsWithSlash_append.
  - intros H. injection H as <-. apply setDefaults_wellFormed; [exact Hslash |].
    rewrite Een. discriminate.
Qed.

Lemma checkConfig_fixed c : wellFormed c -> checkConfig c = (c, None).
Proof.
  intros Hwf. pose proof Hwf as (Hdir & Hauto & _).
  unfold checkConfig.
  replace (Z.of_nat (String.length (ZKSwitcherWatchDir c)) <=? 0) with false.
  2:{ symmetry. apply not_true_iff_false. intros H. apply length_le_0 in H.
      now apply (endsWithSlash_nonempty _ Hdir). }
  rewrite Hdir. simpl.
  destruct (EnableUserAutoReg c) eqn:Een; [| now rewrite setDefaults_fixed].
  specialize (Hauto eq_refl).
  replace (Z.of_nat (String.length (ZKAutoRegWatchDir c)) <=? 0) with false.
  2:{ symmetry. apply not_true_iff_false. intros H. apply length_le_0 in H.
      now apply (endsWithSlash_nonempty _ Hauto). }
  rewrite Hauto. simpl. now rewrite setDefaults_fixed.
Qed.

(** X9. A configuration that [ReadConfigFile] returns without an error
    has a switcher watch directory that ends with a slash, an
    auto-registration watch directory that ends with a slash when
    auto-registration is on, a sub-pool base directory that is empty or
    ends with a slash, and the three intervals at 1 or above; and the
    checks are idempotent: such a configuration goes through them again
    unchanged and without an error. *)
Theorem checkConfig_wellFormed_and_idempotent c c' :
  checkConfig c = (c', None) ->
  wellFormed c' /\ checkConfig c' = (c', None).
Proof.
  intros H. pose proof (checkConfig_returns_wellFormed c c' H) as Hwf.
  split; [exact Hwf | now apply checkConfig_fixed].
Qed.

Lemma checkConfig_wellFormed_and_idempotent_witness :
  wellFormed (fst (checkConfig bareConfig)) /\
  checkConfig (fst (checkConfig bareConfig)) = (fst (checkConfig bareConfig), None).
Proof. apply (checkConfig_wellFormed_and_idempotent bareConfig). reflexivity. Defined.

(** X10. What was configured is kept: the switcher watch directory comes
    back as it was given or with one slash after it, and each interval
    given at 1 or above comes back as it was given; an interval below 1
    comes back as 10, 60 and 5 seconds. *)
Theorem checkConfig_keeps_configured c c' :
  checkConfig c = (c', None) ->
  (ZKSwitcherWatchDir c' = ZKSwitcherWatchDir c \/
   ZKSwitcherWatchDir c' = (ZKSwitcherWatchDir c +:+ "/")%string) /\
  FetchUserListIntervalSeconds c' =
    (if FetchUserListIntervalSeconds c <? 1 then 10 else FetchUserListIntervalSeconds c) /\
  FetchUserCoinIntervalSeconds c' =
    (if FetchUserCoinIntervalSeconds c <? 1 then 60 else FetchUserCoinIntervalSeconds c) /\
  ZKSubPoolUpdateAckTimeout c' =
    (if ZKSubPoolUpdateAckTimeout c <? 1 then 5 else ZKSubPoolUpdateAckTimeout c) /\
  EnableUserAutoReg c' = EnableUserAutoReg c.
Proof.
  unfold checkConfig.
  destruct (Z.of_nat (String.length (ZKSwitcherWatchDir c)) <=? 0); [discriminate |].
  cbv zeta.
  destruct (endsWithSlash (ZKSwitcherWatchDir c)); simpl;
    destruct (EnableUserAutoReg c) eqn:Een;
    try (destruct (Z.of_nat (String.length (ZKAutoRegWatchDir c)) <=? 0); [discriminate |]);
    try destruct (endsWithSlash (ZKAutoRegWatchDir c)); simpl;
    intros H; injection H as <-; simpl; rewrite ?Een; auto 10.
Qed.

Lemma checkConfig_keeps_configured_witness :
  ZKSwitcherWatchDir (fst (checkConfig bareConfig)) = "/stratum/userchain/" /\
  FetchUserListIntervalSeconds (fst (checkConfig bareConfig)) = 10.
Proof.
  pose proof (checkConfig_keeps_configured bareConfig (fst (checkConfig bareConfig)) eq_refl)
    as (_ & Hlist & _).
  split; [reflexivity | exact Hlist].
Defined.

End ConfigFileFacts.

(* ===================================================================== *)
(** * More properties of the user-chain manager *)
(* ===================================================================== *)

Module UserChainNameFacts.

Import Go UserChainManager UserChainManagerFacts.

(** ** The chain postfix *)

Lemma prefix_byte (sep c : ascii) (s : string) :
  String.prefix (String sep "") (String c s) = true <-> sep = c.
Proof.
  simpl. destruct (ascii_dec sep c) as [-> | Hne].
  - destruct s; split; auto.
  - split; [discriminate | congruence].
Qed.

(** Without the separator in the string there is no last index. *)
Lemma LastIndexFrom_absent (sep : ascii) (s : string) : forall i j,
  0 <= i ->
  (0 <=? IndexFrom i s (String sep "")) = false ->
  LastIndexFrom j s (String sep "") = -1.
Proof.
  induction s as [| c s IH]; intros i j Hi Habsent; [reflexivity |].
  cbn [IndexFrom LastIndexFrom] in *. cbv zeta.
  destruct (String.prefix (String sep "") (String c s)) eqn:Ep.
  - apply Z.leb_gt in Habsent. lia.
  - rewrite (IH (i + 1) (j + 1)) by (auto; lia). reflexivity.
Qed.

(** The separator that is followed by no other is the last one. *)
Lemma append_nil (s : string) : ("" +:+ s)%string = s.
Proof. reflexivity. Qed.

Lemma append_cons (c : ascii) (s t : string) :
  (String c s +:+ t)%string = String c (s +:+ t).
Proof. reflexivity. Qed.

Lemma LastIndexFrom_postfix (sep : ascii) (u suffix : string) : forall i,
  0 <= i ->
  (forall j, LastIndexFrom j suffix (String sep "") = -1) ->
  LastIndexFrom i (u +:+ String sep suffix) (String sep "") = i + Z.of_nat (String.length u).
Proof.
  induction u as [| c u IH]; intros i Hi Hsuffix.
  - rewrite append_nil. cbn [LastIndexFrom String.length]. cbv zeta. rewrite Hsuffix.
    replace (0 <=? -1) with false by reflexivity.
    rewrite (proj2 (prefix_byte sep sep suffix) eq_refl). simpl. lia.
  - rewrite append_cons. cbn [LastIndexFrom String.length]. cbv zeta.
    rewrite IH by (auto; lia).
    replace (0 <=? i + 1 + Z.of_nat (String.length u)) with true
      by (symmetry; apply Z.leb_le; lia).
    lia.
Qed.

Lemma IndexFrom_postfix (sep : ascii) (u rest : string) : forall i,
  0 <= i -> i <= IndexFrom i (u +:+ String sep rest) (String sep "").
Proof.
  induction u as [| c u IH]; intros i Hi.
  - rewrite append_nil. cbn [IndexFrom].
    rewrite (proj2 (prefix_byte sep sep rest) eq_refl). lia.
  - rewrite append_cons. cbn [IndexFrom].
    destruct (String.prefix _ _); [lia |]. specialize (IH (i + 1)). lia.
Qed.

Lemma substring_append (u rest : string) :
  substring 0 (String.length u) (u +:+ rest) = u.
Proof.
  induction u as [| c u IH].
  - rewrite append_nil. now destruct rest.
  - rewrite append_cons. simpl. now rewrite IH.
Qed.

(** X11. A name made of a user name, an underscore and a postfix without
    underscore is regularised to the user name, whatever underscores the
    user name has itself, and to the lower-cased user name in a
    case-insensitive deployment. The empty user name is no exception. *)
Theorem RegularUserName_strips_postfix lowerUnicode m u postfix :
  Contains postfix "_" = false ->
  RegularUserName lowerUnicode m (u +:+ String "_" postfix) =
    if StratumServerCaseInsensitive (configData m) then ToLower lowerUnicode u else u.
Proof.
  intros Hnone. unfold RegularUserName.
  assert (Hhas : Contains (u +:+ String "_" postfix) "_" = true).
  { unfold Contains, Index. apply Z.leb_le.
    pose proof (IndexFrom_postfix "_" u postfix 0). lia. }
  assert (Hlast : LastIndex (u +:+ String "_" postfix) "_" = Z.of_nat (String.length u)).
  { unfold LastIndex. rewrite LastIndexFrom_postfix; [lia | lia |].
    intros j. apply (LastIndexFrom_absent "_" postfix 0 j); [lia | exact Hnone]. }
  rewrite Hhas, Hlast. unfold slice.
  replace (Z.to_nat (Z.of_nat (String.length u) - 0)) with (String.length u) by lia.
  change (Z.to_nat 0) with 0%nat. now rewrite substring_append.
Qed.

Lemma RegularUserName_strips_postfix_witness :
  RegularUserName (fun s => s) (exampleManager false) "pool_a_btc" = "pool_a" /\
  RegularUserName (fun s => s) (exampleManager true) "_BTC" = "".
Proof.
  split.
  - exact (RegularUserName_strips_postfix (fun s => s) (exampleManager false)
             "pool_a" "btc" eq_refl).
  - exact (RegularUserName_strips_postfix (fun s => s) (exampleManager true)
             "" "BTC" eq_refl).
Defined.

(** ** Letter case *)

Lemma lowerByte_underscore (c : ascii) : "_"%char = lowerByte c <-> "_"%char = c.
Proof.
  destruct c as [[] [] [] [] [] [] [] []]; vm_compute; split; intros H;
    try reflexivity; discriminate H.
Qed.

Lemma prefix_empty (s : string) : String.prefix "" s = true.
Proof. now destruct s. Qed.

Lemma prefix_underscore_lower (s : string) :
  String.prefix "_" (mapBytes lowerByte s) = String.prefix "_" s.
Proof.
  destruct s as [| c s]; [reflexivity |]. cbn [mapBytes].
  destruct (String.prefix "_" (String c s)) eqn:E.
  - apply prefix_byte in E. apply prefix_byte. now apply (proj2 (lowerByte_underscore c)).
  - destruct (String.prefix "_" (String (lowerByte c) (mapBytes lowerByte s))) eqn:E';
      [| reflexivity].
    apply prefix_byte in E'. apply (proj1 (lowerByte_underscore c)) in E'.
    apply (proj2 (prefix_byte "_" c s)) in E'. congruence.
Qed.

Lemma IndexFrom_lower (s : string) : forall i,
  IndexFrom i (mapBytes lowerByte s) "_" = IndexFrom i s "_".
Proof.
  induction s as [| c s IH]; intros i; [reflexivity |].
  change (mapBytes lowerByte (String c s))
    with (String (lowerByte c) (mapBytes lowerByte s)).
  cbn [IndexFrom].
  change (String (lowerByte c) (mapBytes lowerByte s))
    with (mapBytes lowerByte (String c s)).
  now rewrite prefix_underscore_lower, IH.
Qed.

Lemma LastIndexFrom_lower (s : string) : forall i,
  LastIndexFrom i (mapBytes lowerByte s) "_" = LastIndexFrom i s "_".
Proof.
  induction s as [| c s IH]; intros i; [reflexivity |].
  change (mapBytes lowerByte (String c s))
    with (String (lowerByte c) (mapBytes lowerByte s)).
  cbn [LastIndexFrom]. cbv zeta.
  change (String (lowerByte c) (mapBytes lowerByte s))
    with (mapBytes lowerByte (String c s)).
  now rewrite prefix_underscore_lower, IH.
Qed.

Lemma substring_mapBytes (f : ascii -> ascii) (s : string) : forall n k,
  substring n k (mapBytes f s) = mapBytes f (substring n k s).
Proof.
  induction s as [| c s IH]; intros [| n] [| k]; simpl; try reflexivity;
    rewrite ?IH; reflexivity.
Qed.

Lemma isASCII_substring (s : string) : forall k,
  isASCII s = true -> isASCII (substring 0 k s) = true.
Proof.
  induction s as [| c s IH]; intros [| k] Hs; simpl in *; try reflexivity.
  apply andb_true_iff in Hs as [Hc Hs]. now rewrite Hc, IH.
Qed.

(** In a case-insensitive deployment an ASCII name is regularised to what
    its lower-cased form is regularised to in a case-sensitive one. *)
Lemma RegularUserName_lower lowerUnicode m n :
  StratumServerCaseInsensitive (configData m) = true ->
  isASCII n = true ->
  RegularUserName lowerUnicode m n =
    let lowered := mapBytes lowerByte n in
    if Contains lowered "_" then slice lowered 0 (LastIndex lowered "_") else lowered.
Proof.
  intros Hflag Hascii. unfold RegularUserName. rewrite Hflag. cbv zeta.
  unfold Contains, Index, LastIndex. rewrite IndexFrom_lower, LastIndexFrom_lower.
  destruct (0 <=? IndexFrom 0 n "_").
  - unfold slice, ToLower. rewrite isASCII_substring by exact Hascii.
    now rewrite substring_mapBytes.
  - unfold ToLower. now rewrite Hascii.
Qed.

(** X12. In a case-insensitive deployment two ASCII names that differ in
    the case of their letters only are regularised to the same name: they
    are one user for the manager. *)
Theorem case_insensitive_names_are_one_user lowerUnicode m n1 n2 :
  StratumServerCaseInsensitive (configData m) = true ->
  isASCII n1 = true -> isASCII n2 = true ->
  mapBytes lowerByte n1 = mapBytes lowerByte n2 ->
  RegularUserName lowerUnicode m n1 = RegularUserName lowerUnicode m n2.
Proof.
  intros Hflag H1 H2 Hsame.
  rewrite !RegularUserName_lower by assumption. cbv zeta. now rewrite Hsame.
Qed.

Lemma case_insensitive_names_are_one_user_witness :
  RegularUserName (fun s => s) (exampleManager true) "Alice_btc" =
  RegularUserName (fun s => s) (exampleManager true) "aLICE_BTC".
Proof.
  apply case_insensitive_names_are_one_user; reflexivity.
Defined.

End UserChainNameFacts.

Module UserChainSetterFacts.

Import Go UserChainManager UserChainSync UserChainManagerFacts.

(** Every setter puts one record under the name, made from the record it
    found or made. *)
Lemma applySetter_insert m call :
  applySetter m call =
    withUserChainMap m
      (<[setterUser call := setterInfo call (infoOrNew m (setterUser call))]>
         (userChainMap m)).
Proof.
  destruct call as [u c p | u c | u p]; simpl; try reflexivity.
  unfold SetPUID. cbv zeta. cbn [ChainName PUIDs SubPoolName UserChainManager.userName].
  rewrite length_le_0_eqb.
  now destruct (String.eqb (ChainName (infoOrNew m u)) "").
Qed.

Lemma infoOrNew_insert m u info :
  infoOrNew (withUserChainMap m (<[u := info]> (userChainMap m))) u = info.
Proof. unfold infoOrNew. simpl. now rewrite lookup_insert_eq. Qed.

Lemma infoOrNew_insert_other m u info other :
  u <> other ->
  infoOrNew (withUserChainMap m (<[u := info]> (userChainMap m))) other = infoOrNew m other.
Proof. intros Hne. unfold infoOrNew. simpl. now rewrite lookup_insert_ne. Qed.

Lemma setterInfo_idempotent call info :
  setterInfo call (setterInfo call info) = setterInfo call info.
Proof.
  destruct call as [u c p | u c | u p]; simpl; try reflexivity.
  rewrite insert_insert_eq. f_equal.
  destruct (String.eqb (ChainName info) "") eqn:E; [| now rewrite E].
  now destruct (String.eqb c "") eqn:Ec; [apply String.eqb_eq in Ec |].
Qed.

(** X13. The setters are idempotent: [SetPUID], [SetChain] or [SetSubPool]
    called again with the same arguments leaves the manager as the first
    call left it. *)
Theorem setters_idempotent m call :
  applySetter (applySetter m call) call = applySetter m call.
Proof.
  rewrite (applySetter_insert (applySetter m call)).
  rewrite (applySetter_insert m call) at 1 2 3.
  rewrite infoOrNew_insert, setterInfo_idempotent. rewrite applySetter_insert.
  unfold withUserChainMap. simpl. now rewrite insert_insert_eq.
Qed.

(** X14. Setters called for two different users commute: the manager is
    the same whichever call came first. *)
Theorem setters_of_different_users_commute m call1 call2 :
  setterUser call1 <> setterUser call2 ->
  applySetter (applySetter m call1) call2 = applySetter (applySetter m call2) call1.
Proof.
  intros Hne.
  rewrite (applySetter_insert (applySetter m call1)),
    (applySetter_insert (applySetter m call2)).
  rewrite !(applySetter_insert m).
  rewrite infoOrNew_insert_other by exact Hne.
  rewrite infoOrNew_insert_other by (intros H; now apply Hne).
  unfold withUserChainMap. simpl. f_equal.
  apply insert_insert_ne. intros H. now apply Hne.
Qed.

Lemma setters_of_different_users_commute_witness :
  SetChain "bob" "bcc" (SetPUID "alice" "btc" 5 (exampleManager false)) =
  SetPUID "alice" "btc" 5 (SetChain "bob" "bcc" (exampleManager false)).
Proof.
  apply (setters_of_different_users_commute (exampleManager false)
           (CallSetPUID "alice" "btc" 5) (CallSetChain "bob" "bcc")).
  discriminate.
Defined.

Lemma GetChain_applySetter m call :
  GetChain (setterUser call) (applySetter m call) =
    ChainName (setterInfo call (infoOrNew m (setterUser call))).
Proof.
  rewrite applySetter_insert. unfold GetChain. simpl. now rewrite lookup_insert_eq.
Qed.

(** X15. [SetChain] always wins where [SetPUID] only fills in: after
    [SetChain] the chain of the user is the one given, the ids stay as they
    were, a later [SetPUID] under another chain does not move the user
    unless the chain given to [SetChain] was empty, and a [SetChain] after
    a [SetPUID] overrides the chain that [SetPUID] filled in. *)
Theorem SetChain_overrides u chain m :
  GetChain u (SetChain u chain m) = chain /\
  (forall c, puidOf (SetChain u chain m) u c = puidOf m u c) /\
  (forall c puid,
     GetChain u (SetPUID u c puid (SetChain u chain m)) =
       if String.eqb chain "" then c else chain) /\
  (forall c puid, GetChain u (SetChain u chain (SetPUID u c puid m)) = chain).
Proof.
  assert (Hget : forall m', GetChain u (SetChain u chain m') = chain).
  { intros m'. apply (GetChain_applySetter m' (CallSetChain u chain)). }
  split; [apply Hget |]. split; [| split].
  - intros c. unfold puidOf, SetChain. simpl. rewrite lookup_insert_eq. simpl.
    apply PUIDs_infoOrNew.
  - intros c puid. rewrite GetChain_SetPUID, Hget. reflexivity.
  - intros c puid. apply Hget.
Qed.

End UserChainSetterFacts.

Module UserChainStoreFacts.

Import Go UserChainManager UserChainSync UserChainManagerFacts.

(** ** WriteToZK *)

(** [WriteToZK] for a user with a record, by what the connection does to
    its two calls. *)
Lemma WriteToZK_known u info w :
  userChainMap (manager w) !! u = Some info ->
  let zk := zookeeper w in
  let path := zkPathOf (manager w) u in
  let n := length (zkCalls zk) in
  let second :=
    match znodes zk !! path with
    | Some (_, version) => ZKSet path (Marshal info) version
    | None => ZKCreate path (Marshal info)
    end in
  WriteToZK u w =
    if zkLost zk n then
      (Some (ErrZK ErrNoServer),
       withZookeeper w {| znodes := znodes zk; zkCalls := zkCalls zk ++ [ZKExists path];
                          zkLost := zkLost zk |})
    else if zkLost zk (S n) then
      (Some (ErrZK ErrNoServer),
       withZookeeper w {| znodes := znodes zk;
                          zkCalls := (zkCalls zk ++ [ZKExists path]) ++ [second];
                          zkLost := zkLost zk |})
    else
      (None,
       withZookeeper w {| znodes := <[path := (Marshal info, writtenVersion zk path)]> (znodes zk);
                          zkCalls := (zkCalls zk ++ [ZKExists path]) ++ [second];
                          zkLost := zkLost zk |}).
Proof.
  intros Hinfo zk path n second. unfold WriteToZK. rewrite Hinfo.
  fold (zkPathOf (manager w) u). fold path. fold zk.
  unfold zkExists. fold n.
  destruct (zkLost zk n) eqn:Elost1; [reflexivity |].
  unfold second, writtenVersion.
  destruct (znodes zk !! path) as [[doc version] |] eqn:Enode.
  - unfold zkSet, zkCall. simpl. rewrite length_app. simpl.
    replace (length (zkCalls zk) + 1)%nat with (S n) by (unfold n; lia).
    destruct (zkLost zk (S n)); [reflexivity |].
    rewrite Enode, Z.eqb_refl. reflexivity.
  - unfold zkCreate, zkCall. simpl. rewrite length_app. simpl.
    replace (length (zkCalls zk) + 1)%nat with (S n) by (unfold n; lia).
    destruct (zkLost zk (S n)); [reflexivity |].
    rewrite Enode. reflexivity.
Qed.

(** X16. For a user with a record [WriteToZK] asks ZooKeeper whether the
    node exists and then, unless that call was lost, sets the node under
    the version it was told or creates it: no other call is made, and the
    manager is not touched. *)
Theorem WriteToZK_calls u info w :
  userChainMap (manager w) !! u = Some info ->
  let zk := zookeeper w in
  let path := zkPathOf (manager w) u in
  let w' := snd (WriteToZK u w) in
  manager w' = manager w /\
  zkCalls (zookeeper w') =
    zkCalls zk ++
    ZKExists path ::
    (if zkLost zk (length (zkCalls zk)) then []
     else match znodes zk !! path with
          | Some (_, version) => [ZKSet path (Marshal info) version]
          | None => [ZKCreate path (Marshal info)]
          end).
Proof.
  intros Hinfo zk path w'. unfold w'.
  rewrite (WriteToZK_known u info w Hinfo). cbv zeta. fold zk. fold path.
  destruct (zkLost zk (length (zkCalls zk))); [split; reflexivity |].
  destruct (zkLost zk (S (length (zkCalls zk)))); simpl;
    (split; [reflexivity |]); rewrite <- app_assoc; simpl;
    now destruct (znodes zk !! path) as [[doc version] |].
Qed.

Lemma WriteToZK_calls_witness :
  zkCalls (zookeeper (snd (WriteToZK "alice" worldAlice5))) =
    [ZKExists "/stratum/userchain/alice";
     ZKCreate "/stratum/userchain/alice"
       {| doc_chain := "btc"; doc_subpool := ""; doc_puids := <["btc" := 5]> ∅ |}].
Proof.
  refine (proj2 (WriteToZK_calls "alice"
                   {| userName := "alice"; ChainName := "btc"; SubPoolName := "";
                      PUIDs := <["btc" := 5]> ∅ |} worldAlice5 _)).
  reflexivity.
Defined.



(** ** FlushAllToZK *)







Lemma valid_user_range_map_to_list : valid_user_range map_to_list.
Proof. intros m. reflexivity. Defined.


(** X19. [FlushAllToZK] leaves at the first error: when the connection
    loses the first call and the manager has a user, the error of that call
    is returned after this one call, however many users there are, and no
    node is written. *)
Theorem FlushAllToZK_leaves_at_first_error range w :
  valid_user_range range ->
  userChainMap (manager w) <> ∅ ->
  zkLost (zookeeper w) (length (zkCalls (zookeeper w))) = true ->
  exists u,
    is_Some (userChainMap (manager w) !! u) /\
    FlushAllToZK range w =
      (Some (ErrZK ErrNoServer),
       withZookeeper w
         {| znodes := znodes (zookeeper w);
            zkCalls := zkCalls (zookeeper w) ++ [ZKExists (zkPathOf (manager w) u)];
            zkLost := zkLost (zookeeper w) |}).
Proof.
  intros Hr Hsome Hlost. unfold FlushAllToZK.
  destruct (range (userChainMap (manager w))) as [| [u info] rest] eqn:Erange.
  - exfalso. apply Hsome. apply map_to_list_empty_iff.
    apply Permutation_nil. now rewrite <- (Hr (userChainMap (manager w))), Erange.
  - assert (Hinfo : userChainMap (manager w) !! u = Some info).
    { apply elem_of_map_to_list. rewrite <- (Hr (userChainMap (manager w))), Erange.
      apply list_elem_of_here. }
    exists u. split; [eauto |]. cbn [map fst flushUsers].
    rewrite (WriteToZK_known u info w Hinfo). cbv zeta. now rewrite Hlost.
Qed.

Lemma FlushAllToZK_leaves_at_first_error_witness :
  exists u,
    is_Some (userChainMap (manager worldAlice5Down) !! u) /\
    FlushAllToZK map_to_list worldAlice5Down =
      (Some (ErrZK ErrNoServer),
       withZookeeper worldAlice5Down
         {| znodes := ∅;
            zkCalls := [ZKExists (zkPathOf (manager worldAlice5Down) u)];
            zkLost := fun _ => true |}).
Proof.
  refine (FlushAllToZK_leaves_at_first_error map_to_list worldAlice5Down
            valid_user_range_map_to_list _ eq_refl).
  intros H. apply (f_equal (fun m => m !! "alice")) in H. vm_compute in H. discriminate.
Defined.

End UserChainStoreFacts.

Module UserChainFetchFacts.

Import Go UserChainManager UserChainSync UserChainManagerFacts UserChainStoreFacts.

Section FetchMore.

Variable lowerUnicode : string -> string.

(** ** What a pass of FetchUserIDList leaves *)

Lemma applyUserID_userChainMap chain update w puname puid :
  userChainMap (manager (applyUserID lowerUnicode chain update w (puname, puid))) =
    userChainMap (SetPUID (RegularUserName lowerUnicode (manager w) puname) chain puid
                          (manager w)).
Proof. rewrite applyUserID_manager. cbv zeta. now destruct (puid >? _). Qed.

Lemma applyUserID_configData chain update w entry :
  configData (manager (applyUserID lowerUnicode chain update w entry)) =
    configData (manager w).
Proof.
  destruct entry as [puname puid]. rewrite applyUserID_manager. cbv zeta.
  now destruct (puid >? _).
Qed.

Lemma RegularUserName_configData m1 m2 n :
  configData m1 = configData m2 ->
  RegularUserName lowerUnicode m1 n = RegularUserName lowerUnicode m2 n.
Proof. intros H. unfold RegularUserName. now rewrite H. Qed.

Lemma fold_applyUserID_configData chain update entries : forall w,
  configData (manager (fold_left (applyUserID lowerUnicode chain update) entries w)) =
    configData (manager w).
Proof.
  induction entries as [| entry entries IH]; intros w; [reflexivity |].
  cbn [fold_left]. now rewrite IH, applyUserID_configData.
Qed.

Lemma withCursor_configData m chain : configData (withCursor m chain) = configData m.
Proof. unfold withCursor. now destruct (lastPUID m !! chain). Qed.

Lemma withCursor_lookup m chain :
  lastPUID (withCursor m chain) !! chain = Some (lastPUIDOf m chain).
Proof.
  unfold withCursor, lastPUIDOf. destruct (lastPUID m !! chain) eqn:E; [exact E |].
  simpl. apply lookup_insert_eq.
Qed.

Lemma applyUserID_cursor_lookup chain update w puname puid cursor :
  lastPUID (manager w) !! chain = Some cursor ->
  lastPUID (manager (applyUserID lowerUnicode chain update w (puname, puid))) !! chain =
    Some (Z.max cursor puid).
Proof.
  intros Hcursor. rewrite applyUserID_manager. cbv zeta.
  change (lastPUIDOf (SetPUID _ chain puid (manager w)) chain)
    with (lastPUIDOf (manager w) chain).
  unfold lastPUIDOf. rewrite Hcursor. simpl.
  destruct (puid >? cursor) eqn:E.
  - simpl. rewrite lookup_insert_eq. f_equal. lia.
  - simpl. rewrite Hcursor. f_equal. lia.
Qed.

Lemma fold_applyUserID_cursor_lookup chain update entries : forall w cursor,
  lastPUID (manager w) !! chain = Some cursor ->
  lastPUID (manager (fold_left (applyUserID lowerUnicode chain update) entries w)) !! chain =
    Some (fold_left Z.max (map snd entries) cursor).
Proof.
  induction entries as [| [puname puid] entries IH]; intros w cursor Hcursor;
    [exact Hcursor |].
  cbn [fold_left map snd]. apply IH. now apply applyUserID_cursor_lookup.
Qed.

(** X20. After a call of [FetchUserIDList], whatever its outcome, the
    chain has a cursor and the next request carries it as [last_id]: the
    largest of the cursor before the call (0 when there was none) and the
    ids of the pairs that were applied. *)
Theorem next_request_carries_largest_id chain update env w :
  reqLastID (requestOf (manager (snd (FetchUserIDList lowerUnicode chain update env w)))
                       chain) =
    Some (fold_left Z.max (map snd (fetchedEntries env (manager w) chain))
                    (lastPUIDOf (manager w) chain)).
Proof.
  rewrite FetchUserIDList_world. unfold requestOf. cbn [reqLastID].
  apply fold_applyUserID_cursor_lookup. apply withCursor_lookup.
Qed.

(** X21. A call of [FetchUserIDList] that returns an error has applied no
    pair: the users and ZooKeeper are as before, and the cursor is where it
    was, 0 if the chain had none. *)
Theorem FetchUserIDList_error_applies_nothing chain update env w err :
  fst (FetchUserIDList lowerUnicode chain update env w) = Some err ->
  let w' := snd (FetchUserIDList lowerUnicode chain update env w) in
  userChainMap (manager w') = userChainMap (manager w) /\
  zookeeper w' = zookeeper w /\
  lastPUID (manager w') !! chain = Some (lastPUIDOf (manager w) chain).
Proof.
  rewrite FetchUserIDList_unfold. cbv zeta.
  destruct (httpGet env _) as [| | body]; simpl.
  1,2: intros _; repeat split;
    [apply withCursor_userChainMap | apply withCursor_lookup].
  destruct (UnmarshalUserIDMapResponse body) as [response |].
  - destruct (ErrNo response =? 0); [discriminate |]. simpl.
    intros _; repeat split; [apply withCursor_userChainMap | apply withCursor_lookup].
  - destruct (UnmarshalUserIDMapEmptyResponse body); [discriminate |]. simpl.
    intros _; repeat split; [apply withCursor_userChainMap | apply withCursor_lookup].
Qed.

Lemma applyUserID_kept chain update w entry u info :
  userChainMap (manager w) !! u = Some info ->
  exists info',
    userChainMap (manager (applyUserID lowerUnicode chain update w entry)) !! u = Some info' /\
    kept chain info info'.
Proof.
  intros Hinfo. destruct entry as [puname puid]. rewrite applyUserID_userChainMap.
  destruct (decide (u = RegularUserName lowerUnicode (manager w) puname)) as [<- | Hne].
  - rewrite SetPUID_lookup. eexists. split; [reflexivity |].
    unfold kept, infoOrNew, GetChain. rewrite Hinfo. simpl. repeat split.
    + intros Hset. now rewrite (proj2 (String.eqb_neq _ _) Hset).
    + intros c Hc. now rewrite lookup_insert_ne.
  - rewrite SetPUID_lookup_other by exact Hne. exists info. repeat split; auto.
Qed.

Lemma fold_applyUserID_kept chain update entries : forall w u info,
  userChainMap (manager w) !! u = Some info ->
  exists info',
    userChainMap (manager (fold_left (applyUserID lowerUnicode chain update) entries w)) !! u
      = Some info' /\
    kept chain info info'.
Proof.
  induction entries as [| entry entries IH]; intros w u info Hinfo.
  - exists info. repeat split; auto.
  - cbn [fold_left].
    destruct (applyUserID_kept chain update w entry u info Hinfo)
      as (info1 & Hinfo1 & Hsub1 & Hchain1 & Hids1).
    destruct (IH _ u info1 Hinfo1) as (info' & Hinfo' & Hsub & Hchain & Hids).
    exists info'. split; [exact Hinfo' |]. repeat split.
    + congruence.
    + intros Hset. rewrite Hchain, Hchain1; auto. rewrite Hchain1; auto.
    + intros c Hc. rewrite Hids, Hids1; auto.
Qed.

Lemma FetchUserIDList_kept chain update env w u info :
  userChainMap (manager w) !! u = Some info ->
  exists info',
    userChainMap (manager (snd (FetchUserIDList lowerUnicode chain update env w))) !! u
      = Some info' /\
    kept chain info info'.
Proof.
  intros Hinfo. rewrite FetchUserIDList_world.
  apply fold_applyUserID_kept. simpl. now rewrite withCursor_userChainMap.
Qed.


(** X22. [FetchUserIDList] for a chain removes no user and, of a user it
    finds, changes nothing but the id under this chain and an empty chain
    name: the sub-pool, a chain name that was set and the ids under the
    other chains are as before. *)
Theorem FetchUserIDList_keeps_other_fields chain update env w u info :
  userChainMap (manager w) !! u = Some info ->
  exists info',
    userChainMap (manager (snd (FetchUserIDList lowerUnicode chain update env w))) !! u
      = Some info' /\
    SubPoolName info' = SubPoolName info /\
    (ChainName info <> "" -> ChainName info' = ChainName info) /\
    forall c, c <> chain -> PUIDs info' !! c = PUIDs info !! c.
Proof. apply FetchUserIDList_kept. Qed.

(** [WriteToZK] makes two calls at most. *)
Lemma WriteToZK_call_count u w :
  (length (zkCalls (zookeeper (snd (WriteToZK u w))))
   <= length (zkCalls (zookeeper w)) + 2)%nat.
Proof.
  destruct (userChainMap (manager w) !! u) as [info |] eqn:Hinfo.
  - rewrite (WriteToZK_known u info w Hinfo). cbv zeta.
    destruct (zkLost _ _); [| destruct (zkLost _ _)]; simpl; rewrite ?length_app; simpl; lia.
  - unfold WriteToZK. rewrite Hinfo. simpl. lia.
Qed.

Lemma fold_applyUserID_calls chain update entries : forall w,
  (update = false ->
   zookeeper (fold_left (applyUserID lowerUnicode chain update) entries w) = zookeeper w) /\
  (length (zkCalls (zookeeper (fold_left (applyUserID lowerUnicode chain update) entries w)))
   <= length (zkCalls (zookeeper w)) + 2 * length entries)%nat.
Proof.
  induction entries as [| [puname puid] entries IH]; intros w.
  - split; [reflexivity | simpl; lia].
  - cbn [fold_left]. destruct (IH (applyUserID lowerUnicode chain update w (puname, puid)))
      as [IHoff IHcount].
    split.
    + intros ->. rewrite IHoff by reflexivity. reflexivity.
    + etransitivity; [exact IHcount |]. cbn [length].
      assert (Hstep : (length (zkCalls (zookeeper
                         (applyUserID lowerUnicode chain update w (puname, puid))))
                       <= length (zkCalls (zookeeper w)) + 2)%nat).
      { unfold applyUserID. cbv zeta. destruct update; [| simpl; lia].
        etransitivity; [apply WriteToZK_call_count |]. simpl. lia. }
      lia.
Qed.

(** X23. [FetchUserIDList] called with [update] off never touches
    ZooKeeper; with it on, it makes at most two calls for each pair it
    applies, and none when it applies none. *)
Theorem FetchUserIDList_zookeeper_calls chain update env w :
  let w' := snd (FetchUserIDList lowerUnicode chain update env w) in
  (update = false -> zookeeper w' = zookeeper w) /\
  (length (zkCalls (zookeeper w'))
   <= length (zkCalls (zookeeper w))
      + 2 * length (fetchedEntries env (manager w) chain))%nat.
Proof.
  intros w'. unfold w'. rewrite FetchUserIDList_world.
  apply (fold_applyUserID_calls chain update (fetchedEntries env (manager w) chain)
           (withManager w (withCursor (manager w) chain))).
Qed.

Lemma fold_applyUserID_puidOf_other chain update u entries : forall w,
  (forall entry, entry ∈ entries ->
     RegularUserName lowerUnicode (manager w) (fst entry) <> u) ->
  puidOf (manager (fold_left (applyUserID lowerUnicode chain update) entries w)) u chain =
    puidOf (manager w) u chain.
Proof.
  induction entries as [| [puname puid] entries IH]; intros w Hother; [reflexivity |].
  cbn [fold_left]. rewrite IH.
  - rewrite applyUserID_puidOf. rewrite decide_False; [reflexivity |].
    intros [Heq _]. apply (Hother (puname, puid) (list_elem_of_here _ _)). now rewrite Heq.
  - intros entry Hin.
    rewrite (RegularUserName_configData _ (manager w))
      by apply applyUserID_configData.
    apply Hother. now apply list_elem_of_further.
Qed.

(** X24. The last pair of a user wins: when the pairs applied are
    [before], then [(name, puid)], then [after], and no name of [after] is
    regularised to the same user, the user holds [puid] under the chain
    after the call. *)
Theorem last_pair_of_user_wins chain update env w before name puid after :
  fetchedEntries env (manager w) chain = before ++ (name, puid) :: after ->
  (forall entry, entry ∈ after ->
     RegularUserName lowerUnicode (manager w) (fst entry) <>
     RegularUserName lowerUnicode (manager w) name) ->
  puidOf (manager (snd (FetchUserIDList lowerUnicode chain update env w)))
         (RegularUserName lowerUnicode (manager w) name) chain = Some puid.
Proof.
  intros Hentries Hafter. rewrite FetchUserIDList_world, Hentries.
  rewrite fold_left_app. cbn [fold_left].
  set (w1 := fold_left (applyUserID lowerUnicode chain update) before
               (withManager w (withCursor (manager w) chain))).
  assert (Hconfig : configData (manager w1) = configData (manager w)).
  { unfold w1. rewrite fold_applyUserID_configData. simpl. apply withCursor_configData. }
  rewrite fold_applyUserID_puidOf_other.
  - rewrite applyUserID_puidOf. rewrite decide_True; [reflexivity |].
    split; [| reflexivity]. now apply RegularUserName_configData.
  - intros entry Hin.
    rewrite (RegularUserName_configData _ (manager w))
      by (rewrite applyUserID_configData; exact Hconfig).
    now apply Hafter.
Qed.

End FetchMore.

Lemma FetchUserIDList_error_applies_nothing_witness :
  reqLastID (requestOf (manager (snd (FetchUserIDList (fun s => s) "btc" true unreachable
                                        exampleWorld))) "btc") = Some 0.
Proof.
  exact (proj2 (proj2 (FetchUserIDList_error_applies_nothing (fun s => s) "btc" true
                         unreachable exampleWorld ErrHTTPRequest eq_refl))).
Defined.

Lemma FetchUserIDList_keeps_other_fields_witness :
  exists info',
    userChainMap (manager (snd (FetchUserIDList (fun s => s) "bcc" true
                                  (answering (userListBody 0 "" [("alice_bcc", 9)]))
                                  worldAlice5))) !! "alice" = Some info' /\
    SubPoolName info' = "" /\
    (ChainName (infoOrNew (manager worldAlice5) "alice") <> "" -> ChainName info' = "btc") /\
    forall c, c <> "bcc" ->
      PUIDs info' !! c = PUIDs (infoOrNew (manager worldAlice5) "alice") !! c.
Proof.
  exact (FetchUserIDList_keeps_other_fields (fun s => s) "bcc" true
           (answering (userListBody 0 "" [("alice_bcc", 9)])) worldAlice5 "alice"
           (infoOrNew (manager worldAlice5) "alice") eq_refl).
Defined.

Lemma last_pair_of_user_wins_witness :
  puidOf (manager (snd (FetchUserIDList (fun s => s) "bcc" true
                          (answering (userListBody 0 "" [("alice_bcc", 9)])) worldAlice5)))
         "alice" "bcc" = Some 9.
Proof.
  refine (last_pair_of_user_wins (fun s => s) "bcc" true
            (answering (userListBody 0 "" [("alice_bcc", 9)])) worldAlice5
            [] "alice_bcc" 9 [] eq_refl _).
  intros entry H. now apply elem_of_nil in H.
Defined.

Section CoinFacts.

Variable lowerUnicode : string -> string.

(** ** FetchUserCoinMap *)

Lemma applyUserCoin_manager update w puname chain :
  manager (applyUserCoin lowerUnicode update w (puname, chain)) =
    SetChain (RegularUserName lowerUnicode (manager w) puname) chain (manager w).
Proof.
  unfold applyUserCoin. cbv zeta.
  destruct update; [rewrite WriteToZK_manager |]; reflexivity.
Qed.

Lemma FetchUserCoinMap_world coinConfig update env w :
  fst (FetchUserCoinMap lowerUnicode coinConfig update env w) = None ->
  exists body response,
    httpGetCoin env (coinRequestOf coinConfig (manager w)) = HTTPBody body /\
    UnmarshalUserCoinMapResponse body = Some response /\
    CoinErrNo response = 0 /\
    snd (FetchUserCoinMap lowerUnicode coinConfig update env w) =
      fold_left (applyUserCoin lowerUnicode update)
                (fetchedCoins coinConfig env (manager w))
                (withManager w (withLastRequestDate (manager w)
                                                    (NowDate (CoinData response)))).
Proof.
  unfold FetchUserCoinMap, fetchedCoins.
  destruct (httpGetCoin env _) as [| | body]; try discriminate.
  destruct (UnmarshalUserCoinMapResponse body) as [response |] eqn:Hdec; [| discriminate].
  destruct (CoinErrNo response =? 0) eqn:E; [| discriminate].
  intros _. exists body, response. apply Z.eqb_eq in E. repeat split; auto.
Qed.

Lemma fold_applyUserCoin_inv update (P : Manager -> Prop) entries :
  (forall m u chain, P m -> P (SetChain u chain m)) ->
  forall w, P (manager w) ->
  P (manager (fold_left (applyUserCoin lowerUnicode update) entries w)).
Proof.
  intros Hstep. induction entries as [| [puname chain] entries IH]; intros w Hw; [exact Hw |].
  cbn [fold_left]. apply IH. rewrite applyUserCoin_manager. now apply Hstep.
Qed.

Lemma FetchUserCoinMap_error coinConfig update env w err :
  fst (FetchUserCoinMap lowerUnicode coinConfig update env w) = Some err ->
  snd (FetchUserCoinMap lowerUnicode coinConfig update env w) = w.
Proof.
  unfold FetchUserCoinMap.
  destruct (httpGetCoin env _) as [| | body]; try reflexivity.
  destruct (UnmarshalUserCoinMapResponse body) as [response |]; [| reflexivity].
  destruct (CoinErrNo response =? 0); [discriminate | reflexivity].
Qed.

(** X25. The cursor of the coin map moves on success only, to the
    [now_date] of the answer: a call that returns an error leaves the
    manager and ZooKeeper exactly as they were, and a call that returns nil
    leaves [lastRequestDate] at the [now_date] it decoded. *)
Theorem coin_cursor_moves_on_success coinConfig update env w :
  let result := FetchUserCoinMap lowerUnicode coinConfig update env w in
  match fst result with
  | Some _ => snd result = w
  | None =>
    exists body response,
      httpGetCoin env (coinRequestOf coinConfig (manager w)) = HTTPBody body /\
      UnmarshalUserCoinMapResponse body = Some response /\
      lastRequestDate (manager (snd result)) = NowDate (CoinData response)
  end.
Proof.
  intros result. unfold result.
  destruct (fst (FetchUserCoinMap lowerUnicode coinConfig update env w)) as [err |] eqn:Hfst.
  - now apply (FetchUserCoinMap_error _ _ _ _ err).
  - destruct (FetchUserCoinMap_world _ _ _ _ Hfst) as (body & response & Hget & Hdec & _ & ->).
    exists body, response. split; [exact Hget |]. split; [exact Hdec |].
    apply (fold_applyUserCoin_inv update
             (fun m => lastRequestDate m = NowDate (CoinData response))); auto.
Qed.

Lemma int64_wrap_small z : int64_min <= z <= int64_max -> int64_wrap z = z.
Proof.
  unfold int64_wrap, int64_min, int64_max.
  change (2 ^ 63) with 9223372036854775808. change (2 ^ 64) with 18446744073709551616.
  intros H. rewrite Z.mod_small; lia.
Qed.

(** X26. The request of the coin map asks again for the last interval: once
    a [now_date] above zero was stored, [last_date] is that date minus
    [FetchUserCoinIntervalSeconds] (for an interval from 1 up, as
    [ReadConfigFile] leaves it); before, and after an answer whose
    [now_date] is not above zero, the request has no [last_date]. *)
Theorem coin_request_overlaps_one_interval coinConfig m :
  lastRequestDate m <= int64_max ->
  1 <= FetchUserCoinIntervalSeconds coinConfig <= int64_max ->
  coinLastDate (coinRequestOf coinConfig m) =
    if lastRequestDate m >? 0
    then Some (lastRequestDate m - FetchUserCoinIntervalSeconds coinConfig)
    else None.
Proof.
  intros Hdate Hinterval. unfold coinRequestOf. cbn [coinLastDate].
  destruct (lastRequestDate m >? 0) eqn:E; [| reflexivity].
  apply Z.gtb_lt in E. f_equal.
  unfold int64_min, int64_max in *.
  change (2 ^ 63) with 9223372036854775808 in *.
  rewrite (int64_wrap_small (FetchUserCoinIntervalSeconds coinConfig))
    by (unfold int64_min, int64_max; change (2 ^ 63) with 9223372036854775808; lia).
  apply int64_wrap_small. unfold int64_min, int64_max.
  change (2 ^ 63) with 9223372036854775808. lia.
Qed.

Lemma puidOf_SetChain u chain m v c :
  puidOf (SetChain u chain m) v c = puidOf m v c.
Proof.
  unfold puidOf, SetChain. simpl. destruct (decide (u = v)) as [-> | Hne].
  - rewrite lookup_insert_eq. simpl. apply PUIDs_infoOrNew.
  - now rewrite lookup_insert_ne.
Qed.

Lemma subPool_SetChain u chain m v info :
  userChainMap m !! v = Some info ->
  exists info',
    userChainMap (SetChain u chain m) !! v = Some info' /\
    SubPoolName info' = SubPoolName info /\ PUIDs info' = PUIDs info.
Proof.
  intros Hinfo. unfold SetChain. simpl. destruct (decide (u = v)) as [-> | Hne].
  - rewrite lookup_insert_eq. eexists. split; [reflexivity |].
    unfold infoOrNew. rewrite Hinfo. auto.
  - rewrite lookup_insert_ne by exact Hne. eauto.
Qed.

Lemma FetchUserCoinMap_ids coinConfig update env w :
  lastPUID (manager (snd (FetchUserCoinMap lowerUnicode coinConfig update env w))) =
    lastPUID (manager w) /\
  forall u c,
    puidOf (manager (snd (FetchUserCoinMap lowerUnicode coinConfig update env w))) u c =
      puidOf (manager w) u c.
Proof.
  destruct (fst (FetchUserCoinMap lowerUnicode coinConfig update env w)) as [err |] eqn:Hfst.
  - rewrite (FetchUserCoinMap_error _ _ _ _ err Hfst). auto.
  - destruct (FetchUserCoinMap_world _ _ _ _ Hfst) as (body & response & _ & _ & _ & ->).
    split.
    + apply (fold_applyUserCoin_inv update (fun m => lastPUID m = lastPUID (manager w)));
        auto.
    + intros u c.
      apply (fold_applyUserCoin_inv update
               (fun m => puidOf m u c = puidOf (manager w) u c)); auto.
      intros m v chain Hm. now rewrite puidOf_SetChain.
Qed.

(** X27. [FetchUserCoinMap] moves users between chains and nothing else:
    the ids of every user under every chain and the cursors of the
    user-id lists are as before the call, and a user the manager had keeps
    its record with the same sub-pool and the same ids. *)
Theorem FetchUserCoinMap_moves_chains_only coinConfig update env w :
  let w' := snd (FetchUserCoinMap lowerUnicode coinConfig update env w) in
  lastPUID (manager w') = lastPUID (manager w) /\
  (forall u c, puidOf (manager w') u c = puidOf (manager w) u c) /\
  (forall u info,
     userChainMap (manager w) !! u = Some info ->
     exists info',
       userChainMap (manager w') !! u = Some info' /\
       SubPoolName info' = SubPoolName info /\ PUIDs info' = PUIDs info).
Proof.
  intros w'. unfold w'.
  destruct (FetchUserCoinMap_ids coinConfig update env w) as [Hcursor Hpuids].
  split; [exact Hcursor |]. split; [exact Hpuids |]. clear Hcursor Hpuids.
  destruct (fst (FetchUserCoinMap lowerUnicode coinConfig update env w)) as [err |] eqn:Hfst.
  - rewrite (FetchUserCoinMap_error _ _ _ _ err Hfst). eauto.
  - destruct (FetchUserCoinMap_world _ _ _ _ Hfst) as (body & response & _ & _ & _ & ->).
    + intros u info Hinfo.
      apply (fold_applyUserCoin_inv update
               (fun m => exists info',
                           userChainMap m !! u = Some info' /\
                           SubPoolName info' = SubPoolName info /\
                           PUIDs info' = PUIDs info)); [| simpl; eauto].
      intros m v chain (info1 & Hinfo1 & Hsub & Hids).
      destruct (subPool_SetChain v chain m u info1 Hinfo1) as (info2 & Hinfo2 & Hsub2 & Hids2).
      exists info2. split; [exact Hinfo2 |]. split; congruence.
Qed.

Lemma applyUserCoin_configData update w entry :
  configData (manager (applyUserCoin lowerUnicode update w entry)) = configData (manager w).
Proof. destruct entry as [puname chain]. now rewrite applyUserCoin_manager. Qed.

Lemma fold_applyUserCoin_chain_other update u entries : forall w,
  (forall entry, entry ∈ entries ->
     RegularUserName lowerUnicode (manager w) (fst entry) <> u) ->
  GetChain u (manager (fold_left (applyUserCoin lowerUnicode update) entries w)) =
    GetChain u (manager w).
Proof.
  induction entries as [| [puname chain] entries IH]; intros w Hother; [reflexivity |].
  cbn [fold_left]. rewrite IH.
  - rewrite applyUserCoin_manager. unfold GetChain, SetChain. simpl.
    rewrite lookup_insert_ne; [reflexivity |].
    apply (Hother (puname, chain) (list_elem_of_here _ _)).
  - intros entry Hin.
    rewrite (RegularUserName_configData lowerUnicode _ (manager w))
      by apply applyUserCoin_configData.
    apply Hother. now apply list_elem_of_further.
Qed.

(** X28. In the coin map too the last pair of a user wins: when the pairs
    applied are [before], then [(name, chain)], then [after], and no name
    of [after] is regularised to the same user, the user is on [chain]
    after the call, whatever chain it was on. *)
Theorem last_coin_of_user_wins coinConfig update env w before name chain after :
  fst (FetchUserCoinMap lowerUnicode coinConfig update env w) = None ->
  fetchedCoins coinConfig env (manager w) = before ++ (name, chain) :: after ->
  (forall entry, entry ∈ after ->
     RegularUserName lowerUnicode (manager w) (fst entry) <>
     RegularUserName lowerUnicode (manager w) name) ->
  GetChain (RegularUserName lowerUnicode (manager w) name)
           (manager (snd (FetchUserCoinMap lowerUnicode coinConfig update env w))) = chain.
Proof.
  intros Hfst Hentries Hafter.
  destruct (FetchUserCoinMap_world _ _ _ _ Hfst) as (body & response & _ & _ & _ & ->).
  rewrite Hentries, fold_left_app. cbn [fold_left].
  set (w1 := fold_left (applyUserCoin lowerUnicode update) before _).
  assert (Hconfig : configData (manager w1) = configData (manager w)).
  { unfold w1.
    apply (fold_applyUserCoin_inv update (fun m => configData m = configData (manager w)));
      auto. }
  rewrite fold_applyUserCoin_chain_other.
  - rewrite applyUserCoin_manager.
    rewrite (RegularUserName_configData lowerUnicode (manager w1) (manager w)) by exact Hconfig.
    unfold GetChain, SetChain. simpl. now rewrite lookup_insert_eq.
  - intros entry Hin.
    rewrite (RegularUserName_configData lowerUnicode _ (manager w))
      by (rewrite applyUserCoin_configData; exact Hconfig).
    now apply Hafter.
Qed.

End CoinFacts.

Lemma coin_request_overlaps_one_interval_witness :
  coinLastDate (coinRequestOf exampleCoinConfig
                  (withLastRequestDate (exampleManager false) 1546300800)) =
    Some 1546300740.
Proof.
  refine (coin_request_overlaps_one_interval exampleCoinConfig
            (withLastRequestDate (exampleManager false) 1546300800) _ _);
    vm_compute; intuition discriminate.
Defined.

Lemma last_coin_of_user_wins_witness :
  GetChain "alice"
    (manager (snd (FetchUserCoinMap (fun s => s) exampleCoinConfig true
                     (answeringCoin (userCoinBody [("alice_btc", "bcc")] 1546300800))
                     worldAlice5))) = "bcc".
Proof.
  refine (last_coin_of_user_wins (fun s => s) exampleCoinConfig true
            (answeringCoin (userCoinBody [("alice_btc", "bcc")] 1546300800)) worldAlice5
            [] "alice_btc" "bcc" [] eq_refl eq_refl _).
  intros entry H. now apply elem_of_nil in H.
Defined.

Section CronFacts.

Variable lowerUnicode : string -> string.

(** ** The cron jobs *)





End CronFacts.

End UserChainFetchFacts.
